(** * Multi-explorer block lookup: a shallow embedding of chain-explorer.js

    The JavaScript module queries several block explorers for a block hash
    (from a height) or for a block's merkle root and time (from a hash) and
    answers only when the explorers that answered agree.  This file embeds
    the module's classes [ChainInsight], [Blockstream] and [MultiExplorer]
    as Rocq functions over a small model of JavaScript values, and proves
    properties of the normalisation of responses, of the construction of a
    [MultiExplorer] and of its consensus decision.

    Modelling conventions.
    - A JavaScript value is a [value].  Numbers are the integers ([Z]); the
      values NaN, infinities, negative zero and fractions are not
      represented.  A string is a [string], one character per code unit
      below 256.  An object is the list of its own enumerable properties in
      enumeration order; an [Error] object is [VError] with its message.
    - A promise is modelled by the way it settles ([settled]).  The order in
      which the explorers' promises settle is not part of the model:
      [Promise.all] hands the results over in the order of the explorers.
    - The HTTP transport ([requestPromise]) is a function from the request
      options to a [response]; the requests a call performs are returned
      next to its result. *)

From Stdlib Require Import ZArith List String Ascii Bool Lia Permutation.
From Stdlib Require Import Decimal DecimalFacts DecimalN DecimalZ.
Import ListNotations.
Open Scope string_scope.
Open Scope Z_scope.

(** ** JavaScript values *)

#[local] Unset Elimination Schemes.
Inductive value : Type :=
| VUndefined
| VNull
| VBool (b : bool)
| VNum (n : Z)
| VStr (s : string)
| VArr (elems : list value)
| VObj (props : list (string * value))
| VError (message : string).
#[local] Set Elimination Schemes.

(** ToBoolean: the falsy values are undefined, null, false, 0 and the
    empty string; every object (arrays and errors too) is truthy. *)
Definition truthy (v : value) : bool :=
  match v with
  | VUndefined | VNull => false
  | VBool b => b
  | VNum n => negb (n =? 0)
  | VStr s => negb (String.eqb s "")
  | VArr _ | VObj _ | VError _ => true
  end.

(** [v instanceof Error] *)
Definition instanceof_Error (v : value) : bool :=
  match v with VError _ => true | _ => false end.

(** [typeof v === 'string'] *)
Definition typeof_string (v : value) : bool :=
  match v with VStr _ => true | _ => false end.

(** The own property [k] of an object, [undefined] when there is none. *)
Fixpoint lookup (k : string) (props : list (string * value)) : value :=
  match props with
  | [] => VUndefined
  | (k', v) :: rest => if String.eqb k k' then v else lookup k rest
  end.

(** [body.k] for a body that is neither null nor undefined.  The names the
    module reads ([blockHash], [size], [merkleroot], [time], [merkle_root],
    [timestamp]) are properties of no primitive, array or error, so the
    access gives [undefined] on everything but an object that has them. *)
Definition get (v : value) (k : string) : value :=
  match v with
  | VObj props => lookup k props
  | _ => VUndefined
  end.

(** [v === 0] *)
Definition strict_eq_zero (v : value) : bool :=
  match v with VNum n => n =? 0 | _ => false end.

(** *** Decimal text of an integer *)

Fixpoint digit_chars (u : Decimal.uint) : string :=
  match u with
  | Nil => EmptyString
  | D0 u => String "0" (digit_chars u)
  | D1 u => String "1" (digit_chars u)
  | D2 u => String "2" (digit_chars u)
  | D3 u => String "3" (digit_chars u)
  | D4 u => String "4" (digit_chars u)
  | D5 u => String "5" (digit_chars u)
  | D6 u => String "6" (digit_chars u)
  | D7 u => String "7" (digit_chars u)
  | D8 u => String "8" (digit_chars u)
  | D9 u => String "9" (digit_chars u)
  end.

(** Number::toString for an integer below 10^21 in absolute value. *)
Definition Number_toString (n : Z) : string :=
  match n with
  | Z0 => "0"
  | Zpos p => digit_chars (Pos.to_uint p)
  | Zneg p => String "-" (digit_chars (Pos.to_uint p))
  end.

Fixpoint join (sep : string) (parts : list string) : string :=
  match parts with
  | [] => EmptyString
  | [p] => p
  | p :: rest => p ++ sep ++ join sep rest
  end.

(** ToString, as used by [+] with a string operand. *)
Fixpoint ToString (v : value) : string :=
  match v with
  | VUndefined => "undefined"
  | VNull => "null"
  | VBool true => "true"
  | VBool false => "false"
  | VNum n => Number_toString n
  | VStr s => s
  | VArr elems =>
      join "," (map (fun e => match e with
                              | VUndefined | VNull => EmptyString
                              | _ => ToString e
                              end) elems)
  | VObj _ => "[object Object]"
  | VError message =>
      if String.eqb message "" then "Error" else "Error: " ++ message
  end.

(** ** The JSON object of the language

    [JSON.stringify] without indentation and [JSON.parse] without a
    reviver.  [parse] reads the whitespace-free texts [stringify] writes
    (the only texts the module hands to it); a number is an integer. *)

Module JSON.

Definition hex_digit (n : N) : ascii :=
  match n with
  | 0 => "0" | 1 => "1" | 2 => "2" | 3 => "3" | 4 => "4" | 5 => "5"
  | 6 => "6" | 7 => "7" | 8 => "8" | 9 => "9" | 10 => "a" | 11 => "b"
  | 12 => "c" | 13 => "d" | 14 => "e" | _ => "f"
  end%N%char.

(** The double quote, code unit 34. *)
Definition dquote : ascii := ascii_of_N 34.

(** One code unit of QuoteJSONString: the short escapes, a [\u00xx]
    escape for the other control characters, the character itself
    otherwise. *)
Definition quote_char (c : ascii) : string :=
  match N_of_ascii c with
  | 8 => "\b"
  | 9 => "\t"
  | 10 => "\n"
  | 12 => "\f"
  | 13 => "\r"
  | 34 => String "\" (String dquote EmptyString)
  | 92 => "\\"
  | n =>
      if n <? 32
      then "\u00" ++ String (hex_digit (n / 16))
                        (String (hex_digit (n mod 16)) EmptyString)
      else String c EmptyString
  end%N.

Fixpoint quote_chars (s : string) : string :=
  match s with
  | EmptyString => EmptyString
  | String c r => quote_char c ++ quote_chars r
  end.

Definition QuoteJSONString (s : string) : string :=
  String dquote (quote_chars s ++ String dquote EmptyString).

(** SerializeJSONProperty.  [None] is the result [undefined].  In an
    array an element that serialises to undefined is written [null]; in
    an object such a property is left out.  An [Error] has no enumerable
    property of its own and is written as the empty object. *)
Fixpoint stringify (v : value) : option string :=
  match v with
  | VUndefined => None
  | VNull => Some "null"
  | VBool true => Some "true"
  | VBool false => Some "false"
  | VNum n => Some (Number_toString n)
  | VStr s => Some (QuoteJSONString s)
  | VArr elems =>
      Some ("[" ++ join ","
              (map (fun e => match stringify e with
                             | Some t => t
                             | None => "null"
                             end) elems) ++ "]")
  | VObj props =>
      Some ("{" ++ join ","
              (flat_map (fun kv => match stringify (snd kv) with
                                   | Some t =>
                                       [QuoteJSONString (fst kv) ++ ":" ++ t]
                                   | None => []
                                   end) props) ++ "}")
  | VError _ => Some "{}"
  end.

(** *** Reading *)

Definition hex_value (c : ascii) : option N :=
  let n := N_of_ascii c in
  (if (48 <=? n) && (n <=? 57) then Some (n - 48)
   else if (97 <=? n) && (n <=? 102) then Some (n - 87)
   else if (65 <=? n) && (n <=? 70) then Some (n - 55)
   else None)%N.

Definition cons_char (c : ascii) (r : option (string * string))
  : option (string * string) :=
  match r with
  | Some (s, rest) => Some (String c s, rest)
  | None => None
  end.

(** The characters of a string literal after its opening quote, up to
    and including the closing quote. *)
Fixpoint parse_chars (s : string) : option (string * string) :=
  match s with
  | EmptyString => None
  | String c r =>
      match N_of_ascii c with
      | 34 => Some (EmptyString, r)
      | 92 =>
          match r with
          | EmptyString => None
          | String e r1 =>
              match N_of_ascii e with
              | 34 | 92 | 47 => cons_char e (parse_chars r1)
              | 98 => cons_char (ascii_of_N 8) (parse_chars r1)
              | 102 => cons_char (ascii_of_N 12) (parse_chars r1)
              | 110 => cons_char (ascii_of_N 10) (parse_chars r1)
              | 114 => cons_char (ascii_of_N 13) (parse_chars r1)
              | 116 => cons_char (ascii_of_N 9) (parse_chars r1)
              | 117 =>
                  match r1 with
                  | String h1 (String h2 (String h3 (String h4 r2))) =>
                      match hex_value h1, hex_value h2,
                            hex_value h3, hex_value h4 with
                      | Some a, Some b, Some c', Some d =>
                          let code := ((a * 16 + b) * 16 + c') * 16 + d in
                          if code <? 256
                          then cons_char (ascii_of_N code) (parse_chars r2)
                          else None
                      | _, _, _, _ => None
                      end
                  | _ => None
                  end
              | _ => None
              end
          end
      | n => if n <? 32 then None else cons_char c (parse_chars r)
      end
  end%N.

Definition digit_of (c : ascii) : option (Decimal.uint -> Decimal.uint) :=
  match N_of_ascii c with
  | 48 => Some D0 | 49 => Some D1 | 50 => Some D2 | 51 => Some D3
  | 52 => Some D4 | 53 => Some D5 | 54 => Some D6 | 55 => Some D7
  | 56 => Some D8 | 57 => Some D9 | _ => None
  end%N.

(** The longest run of decimal digits at the head of the text. *)
Fixpoint parse_digits (s : string) : Decimal.uint * string :=
  match s with
  | EmptyString => (Nil, s)
  | String c r =>
      match digit_of c with
      | Some d => let (u, rest) := parse_digits r in (d u, rest)
      | None => (Nil, s)
      end
  end.

(** The integer part of the number grammar: one digit, or several that
    do not start with a zero. *)
Definition int_digits (u : Decimal.uint) : bool :=
  match u with
  | Nil => false
  | D0 Nil => true
  | D0 _ => false
  | _ => true
  end.

Definition starts_fraction (s : string) : bool :=
  match s with
  | String c _ =>
      let n := N_of_ascii c in
      ((n =? 46) || (n =? 101) || (n =? 69))%N
  | EmptyString => false
  end.

(** The digits of an integer literal, after its sign; a fraction or an
    exponent has no value here. *)
Definition parse_int (neg : bool) (body : string) : option (value * string) :=
  let (u, rest) := parse_digits body in
  if int_digits u && negb (starts_fraction rest)
  then Some (VNum (if neg then - Z.of_N (N.of_uint u)
                   else Z.of_N (N.of_uint u)), rest)
  else None.

Definition parse_number (s : string) : option (value * string) :=
  match s with
  | String c r =>
      if (N_of_ascii c =? 45)%N then parse_int true r else parse_int false s
  | EmptyString => None
  end.

Fixpoint expect (word : string) (s : string) : option string :=
  match word, s with
  | EmptyString, _ => Some s
  | String w word', String c r =>
      if Ascii.eqb w c then expect word' r else None
  | String _ _, EmptyString => None
  end.

(** Defining a property of an object under construction: a key that is
    already there keeps its place and takes the new value. *)
Fixpoint define (props : list (string * value)) (k : string) (v : value)
  : list (string * value) :=
  match props with
  | [] => [(k, v)]
  | (k', v') :: rest =>
      if String.eqb k k' then (k, v) :: rest
      else (k', v') :: define rest k v
  end.

Definition object_of (members : list (string * value)) : value :=
  VObj (fold_left (fun props kv => define props (fst kv) (snd kv))
                  members []).

Fixpoint parse_value (fuel : nat) (s : string) {struct fuel}
  : option (value * string) :=
  match fuel with
  | O => None
  | S fuel' =>
      match s with
      | EmptyString => None
      | String c r =>
          match N_of_ascii c with
          | 110 =>
              match expect "ull" r with
              | Some r' => Some (VNull, r')
              | None => None
              end
          | 116 =>
              match expect "rue" r with
              | Some r' => Some (VBool true, r')
              | None => None
              end
          | 102 =>
              match expect "alse" r with
              | Some r' => Some (VBool false, r')
              | None => None
              end
          | 34 =>
              match parse_chars r with
              | Some (str, r') => Some (VStr str, r')
              | None => None
              end
          | 91 =>
              match expect "]" r with
              | Some r' => Some (VArr [], r')
              | None =>
                  match parse_elements fuel' r with
                  | Some (elems, r') => Some (VArr elems, r')
                  | None => None
                  end
              end
          | 123 =>
              match expect "}" r with
              | Some r' => Some (VObj [], r')
              | None =>
                  match parse_members fuel' r with
                  | Some (members, r') => Some (object_of members, r')
                  | None => None
                  end
              end
          | _ => parse_number s
          end%N
      end
  end
with parse_elements (fuel : nat) (s : string) {struct fuel}
  : option (list value * string) :=
  match fuel with
  | O => None
  | S fuel' =>
      match parse_value fuel' s with
      | Some (v, String c r) =>
          match N_of_ascii c with
          | 44 =>
              match parse_elements fuel' r with
              | Some (vs, r') => Some (v :: vs, r')
              | None => None
              end
          | 93 => Some ([v], r)
          | _ => None
          end%N
      | _ => None
      end
  end
with parse_members (fuel : nat) (s : string) {struct fuel}
  : option (list (string * value) * string) :=
  match fuel with
  | O => None
  | S fuel' =>
      match expect (String dquote EmptyString) s with
      | None => None
      | Some r0 =>
          match parse_chars r0 with
          | Some (k, String colon r1) =>
              if (N_of_ascii colon =? 58)%N then
                match parse_value fuel' r1 with
                | Some (v, String c r2) =>
                    match N_of_ascii c with
                    | 44 =>
                        match parse_members fuel' r2 with
                        | Some (ms, r') => Some ((k, v) :: ms, r')
                        | None => None
                        end
                    | 125 => Some ([(k, v)], r2)
                    | _ => None
                    end%N
                | _ => None
                end
              else None
          | _ => None
          end
      end
  end.

(** [JSON.parse text]; [None] stands for the SyntaxError it throws. *)
Definition parse (text : string) : option value :=
  match parse_value (String.length text) text with
  | Some (v, EmptyString) => Some v
  | _ => None
  end.

End JSON.

(** ** Promises and the transport *)

(** How an explorer's promise settles.  Every rejection in the module
    carries an [Error] object ([new Error(...)], an exception caught from a
    callback, or the transport's RequestError or StatusCodeError, which
    inherit from [Error]); [Rejected] holds its message. *)
Inductive settled : Type :=
| Fulfilled (v : value)
| Rejected (message : string).

(** The promise a [MultiExplorer] query returns: it settles, or, when the
    callback that should settle it throws, stays pending for ever. *)
Inductive promise : Type :=
| Settles (s : settled)
| Pending.

(** The options object handed to [requestPromise].  The method (GET), the
    User-Agent and Content-Type headers and [json: true] are constants. *)
Record request : Type := {
  url : string;
  accept : string;
  timeout : Z
}.

(** What [requestPromise] does with a request: it resolves with the body
    (parsed as JSON when it can be), or rejects with an error. *)
Inductive response : Type :=
| Body (body : value)
| Failed (message : string).

(** The network as the module sees it: the answer to each request. *)
Definition transport : Type := request -> response.

(** Code that talks to the network threads the log of the requests issued
    so far. *)
Definition io (A : Type) : Type := list request -> A * list request.

Definition ret {A : Type} (a : A) : io A := fun log => (a, log).

Definition bind {A B : Type} (m : io A) (k : A -> io B) : io B :=
  fun log => let (a, log') := m log in k a log'.

Notation "x <- m ;; k" := (bind m (fun x => k))
  (at level 61, m at next level, right associativity).

(** [requestPromise(options)]: one request goes out and is answered. *)
Definition requestPromise (net : transport) (options : request)
  : io response :=
  fun log => (net options, (log ++ [options])%list).

(** The calls of a list of explorers, in order. *)
Fixpoint forEach {A B : Type} (f : A -> io B) (l : list A) : io (list B) :=
  match l with
  | [] => ret []
  | a :: rest =>
      b <- f a ;;
      bs <- forEach f rest ;;
      ret (b :: bs)
  end.

Module Utils.

(** Modelled from the spec: [Utils.softFail] of utils.js, which is not
    among the sources.  It turns a promise into one that never rejects:
    the promise resolves with the value, or with the error object of the
    rejection. *)
Definition softFail (p : settled) : value :=
  match p with
  | Fulfilled v => v
  | Rejected message => VError message
  end.

End Utils.

(** ** The explorers *)

Inductive family : Type := Insight | BlockstreamApi.

(** An instance of [ChainInsight] or [Blockstream]: the class and the
    fields the constructors set. *)
Record chain_explorer : Type := {
  kind : family;
  explorer_timeout : Z;
  urlBlockindex : string;
  urlBlock : string
}.

Definition new_ChainInsight (u : string) (t : Z) : chain_explorer :=
  {| kind := Insight;
     explorer_timeout := t * 1000;
     urlBlockindex := u ++ "/block-index";
     urlBlock := u ++ "/block" |}.

Definition new_Blockstream (u : string) (t : Z) : chain_explorer :=
  {| kind := BlockstreamApi;
     explorer_timeout := t * 1000;
     urlBlockindex := u ++ "/block-height/";
     urlBlock := u ++ "/block/" |}.

(** The message of the TypeError an engine raises for reading the
    property [k] of [v], which is null or undefined. *)
Definition cannot_read (v : value) (k : string) : string :=
  "Cannot read properties of " ++ ToString v ++ " (reading '" ++ k ++ "')".

Definition is_nullish (v : value) : bool :=
  match v with VUndefined | VNull => true | _ => false end.

Module ChainInsight.

(** The callback of [parseBlockhash] on a body.  Reading [body.size] of
    a null or undefined body throws; the [catch] that follows rejects
    with that exception. *)
Definition parseBlockhash_then (body : value) : settled :=
  if is_nullish body then Rejected (cannot_read body "size")
  else if strict_eq_zero (get body "size")
  then Rejected "Insight response error body "
  else Fulfilled (get body "blockHash").

Definition parseBlockhash (net : transport) (options : request)
  : io settled :=
  r <- requestPromise net options ;;
  ret (match r with
       | Body body => parseBlockhash_then body
       | Failed err => Rejected err
       end).

(** The callback of [parseBlockInfo] on a body. *)
Definition parseBlockInfo_then (body : value) : settled :=
  if negb (truthy body) then Rejected "Insight response error body "
  else if negb (truthy (get body "merkleroot"))
          || negb (truthy (get body "time"))
  then Rejected "Insight response error body "
  else Fulfilled (VObj [("merkleroot", get body "merkleroot");
                        ("time", get body "time")]).

Definition parseBlockInfo (net : transport) (options : request)
  : io settled :=
  r <- requestPromise net options ;;
  ret (match r with
       | Body body => parseBlockInfo_then body
       | Failed err => Rejected err
       end).

End ChainInsight.

Module Blockstream.

Definition parseBlockhash_then (body : value) : settled :=
  if negb (truthy body) then Rejected "Blockstream response error body "
  else Fulfilled body.

Definition parseBlockhash (net : transport) (options : request)
  : io settled :=
  r <- requestPromise net options ;;
  ret (match r with
       | Body body => parseBlockhash_then body
       | Failed err => Rejected err
       end).

Definition parseBlockInfo_then (body : value) : settled :=
  if negb (truthy body) then Rejected "Blockstream response error body "
  else if negb (truthy (get body "merkle_root"))
          || negb (truthy (get body "timestamp"))
  then Rejected "Blockstream response error body "
  else Fulfilled (VObj [("merkleroot", get body "merkle_root");
                        ("time", get body "timestamp")]).

Definition parseBlockInfo (net : transport) (options : request)
  : io settled :=
  r <- requestPromise net options ;;
  ret (match r with
       | Body body => parseBlockInfo_then body
       | Failed err => Rejected err
       end).

End Blockstream.

Module ChainExplorer.

(** The request [blockhash] builds. *)
Definition blockhash_options (e : chain_explorer) (height : value) : request :=
  {| url := urlBlockindex e ++ "/" ++ ToString height;
     accept := "*/*";
     timeout := explorer_timeout e |}.

(** The request [block] builds. *)
Definition block_options (e : chain_explorer) (hash : value) : request :=
  {| url := urlBlock e ++ "/" ++ ToString hash;
     accept := "application/json";
     timeout := explorer_timeout e |}.

(** [explorer.blockhash(height)], dispatched on the class. *)
Definition blockhash (net : transport) (e : chain_explorer) (height : value)
  : io settled :=
  match kind e with
  | Insight =>
      ChainInsight.parseBlockhash net (blockhash_options e height)
  | BlockstreamApi =>
      Blockstream.parseBlockhash net (blockhash_options e height)
  end.

(** [explorer.block(hash)], dispatched on the class. *)
Definition block (net : transport) (e : chain_explorer) (hash : value)
  : io settled :=
  match kind e with
  | Insight =>
      ChainInsight.parseBlockInfo net (block_options e hash)
  | BlockstreamApi =>
      Blockstream.parseBlockInfo net (block_options e hash)
  end.

End ChainExplorer.

(** The table of public Insight servers, by chain.  A chain that is not a
    key of the table has no list. *)
Definition publicChainInsightUrls (chain : string) : option (list string) :=
  if String.eqb chain "bitcoin" then
    Some ["https://insight.bitpay.com/api";
          "https://btc-bitcore1.trezor.io/api";
          "https://btc-bitcore4.trezor.io/api";
          "https://blockexplorer.com/api";
          "https://bitcore.schmoock.net/insight-api"]
  else if String.eqb chain "bitcoinTestnet" then
    Some ["https://test-insight.bitpay.com/api";
          "https://testnet.blockexplorer.com/api"]
  else if String.eqb chain "litecoin" then
    Some ["https://ltc-bitcore1.trezor.io/api";
          "https://insight.litecore.io/api"]
  else None.

(** ** MultiExplorer *)

(** One entry of [options.explorers]. *)
Record ProviderSpec : Type := {
  spec_url : value;
  spec_type : value
}.

(** The argument of the constructor; [None] in a field is a property the
    object does not have. *)
Record Options : Type := {
  opt_timeout : option Z;
  opt_chain : option string;
  opt_explorers : option (list ProviderSpec)
}.

Inductive exn : Type :=
| TypeError (message : string).

(** [v === s] for a string literal [s] *)
Definition strict_eq_string (v : value) (s : string) : bool :=
  match v with VStr s' => String.eqb s' s | _ => false end.

(** The Set of the consensus step: its elements are results of
    [JSON.stringify] (a text, or undefined), kept in insertion order. *)
Module JSSet.

Definition t : Type := list (option string).

Definition empty : t := [].

Definition same (x y : option string) : bool :=
  match x, y with
  | Some a, Some b => String.eqb a b
  | None, None => true
  | _, _ => false
  end.

Definition has (s : t) (x : option string) : bool := existsb (same x) s.

Definition add (s : t) (x : option string) : t :=
  if has s x then s else (s ++ [x])%list.

Definition size (s : t) : nat := List.length s.

(** [set.values().next().value] *)
Definition first (s : t) : option (option string) := hd_error s.

End JSSet.

Module MultiExplorer.

Record t : Type := { explorers : list chain_explorer }.

(** The body of the constructor's [forEach] for one entry. *)
Definition make (timeout : Z) (explorer : ProviderSpec) : exn + chain_explorer :=
  match spec_url explorer with
  | VStr u =>
      if truthy (spec_type explorer)
         && strict_eq_string (spec_type explorer) "insight"
      then inr (new_ChainInsight u timeout)
      else inr (new_Blockstream u timeout)
  | _ => inl (TypeError "URL must be a string")
  end.

(** The constructor's [forEach]: the entries are handled in order, each
    instance is pushed on [this.explorers], the first throw stops it. *)
Fixpoint push_all (timeout : Z) (explorers : list ProviderSpec)
  (this_explorers : list chain_explorer) : exn + list chain_explorer :=
  match explorers with
  | [] => inr this_explorers
  | explorer :: rest =>
      match make timeout explorer with
      | inl e => inl e
      | inr i => push_all timeout rest (this_explorers ++ [i])%list
      end
  end.

(** The constant [timeout] of the constructor; [options] is [None] when
    the argument is left out. *)
Definition timeout_of (options : option Options) : Z :=
  match options with
  | Some o => match opt_timeout o with Some x => x | None => 10 end
  | None => 10
  end.

(** The constant [chain] of the constructor. *)
Definition chain_of (options : option Options) : string :=
  match options with
  | Some o => match opt_chain o with Some c => c | None => "bitcoin" end
  | None => "bitcoin"
  end.

(** The constant [explorersOptionSet]: the option is there and holds more
    than one entry. *)
Definition explorersOptionSet (options : option Options) : bool :=
  match options with
  | Some o =>
      match opt_explorers o with
      | Some l => (1 <? List.length l)%nat
      | None => false
      end
  | None => false
  end.

(** [options.explorers], read when [explorersOptionSet] holds. *)
Definition explorers_option (options : option Options) : list ProviderSpec :=
  match options with
  | Some o => match opt_explorers o with Some l => l | None => [] end
  | None => []
  end.

(** [new MultiExplorer(options)].  When the table has no list for the
    chain, the call of [map] on undefined throws. *)
Definition constructor (options : option Options) : exn + t :=
  let timeout := timeout_of options in
  let chain := chain_of options in
  let explorers :=
    if explorersOptionSet options
    then inr (explorers_option options)
    else match publicChainInsightUrls chain with
         | Some urls =>
             inr (map (fun u => {| spec_url := VStr u;
                                   spec_type := VStr "insight" |}) urls)
         | None => inl (TypeError (cannot_read VUndefined "map"))
         end in
  match explorers with
  | inl e => inl e
  | inr l =>
      match push_all timeout l [] with
      | inl e => inl e
      | inr es => inr {| explorers := es |}
      end
  end.

(** The callback handed to [results.filter]: the text of a result that
    is truthy and is not an Error goes into the Set. *)
Definition collect (set : JSSet.t) (result : value) : JSSet.t :=
  if truthy result && negb (instanceof_Error result)
  then JSSet.add set (JSON.stringify result)
  else set.

(** The Set once the callback has seen every result. *)
Definition answers (results : list value) : JSSet.t :=
  fold_left collect results JSSet.empty.

(** [JSON.parse(set.values().next().value)]; the argument is converted
    to a string first. *)
Definition parse_first (set : JSSet.t) : option value :=
  match JSSet.first set with
  | Some (Some text) => JSON.parse text
  | Some None | None => JSON.parse "undefined"
  end.

(** The callback of [blockhash] on the results of [Promise.all]. *)
Definition blockhash_then (height : value) (results : list value)
  : promise :=
  let set := answers results in
  match JSSet.size set with
  | O => Settles (Rejected ("No block height " ++ ToString height ++ "found"))
  | 1%nat =>
      match parse_first set with
      | Some v => Settles (Fulfilled v)
      | None => Pending
      end
  | _ =>
      Settles (Rejected ("Different block height " ++ ToString height
                         ++ "found"))
  end.

(** The callback of [block] on the results of [Promise.all]. *)
Definition block_then (hash : value) (results : list value) : promise :=
  let set := answers results in
  match JSSet.size set with
  | O => Settles (Rejected ("No block hash " ++ ToString hash ++ "found"))
  | 1%nat =>
      match parse_first set with
      | Some v => Settles (Fulfilled v)
      | None => Pending
      end
  | _ =>
      Settles (Rejected ("Different block hash " ++ ToString hash
                         ++ "found"))
  end.

(** The promises of the explorers for [blockhash], as they settle. *)
Definition blockhash_all (net : transport) (this : t) (height : value)
  : io (list settled) :=
  forEach (fun explorer => ChainExplorer.blockhash net explorer height)
          (explorers this).

Definition blockhash (net : transport) (this : t) (height : value)
  : io promise :=
  res <- blockhash_all net this height ;;
  ret (blockhash_then height (map Utils.softFail res)).

(** The promises of the explorers for [block], as they settle. *)
Definition block_all (net : transport) (this : t) (hash : value)
  : io (list settled) :=
  forEach (fun explorer => ChainExplorer.block net explorer hash)
          (explorers this).

Definition block (net : transport) (this : t) (hash : value)
  : io promise :=
  res <- block_all net this hash ;;
  ret (block_then hash (map Utils.softFail res)).

End MultiExplorer.

(** A caller, as in the test file: build a [MultiExplorer], then query
    it.  A throw of the constructor ends the run. *)
Module Client.

Definition blockhash (net : transport) (options : option Options)
  (height : value) : io (exn + promise) :=
  match MultiExplorer.constructor options with
  | inl e => ret (inl e)
  | inr m => p <- MultiExplorer.blockhash net m height ;; ret (inr p)
  end.

Definition block (net : transport) (options : option Options)
  (hash : value) : io (exn + promise) :=
  match MultiExplorer.constructor options with
  | inl e => ret (inl e)
  | inr m => p <- MultiExplorer.block net m hash ;; ret (inr p)
  end.

End Client.

(** ** The values a response can hold

    A body that came out of [JSON.parse], or a part of one: no undefined
    and no Error inside, whole numbers in the range a double holds
    exactly, and objects whose keys are distinct. *)

Definition is_safe_integer (n : Z) : bool :=
  (- 9007199254740991 <=? n) && (n <=? 9007199254740991).

Fixpoint distinct (keys : list string) : bool :=
  match keys with
  | [] => true
  | k :: rest => negb (existsb (String.eqb k) rest) && distinct rest
  end.

Fixpoint is_json (v : value) : bool :=
  match v with
  | VUndefined | VError _ => false
  | VNull | VBool _ | VStr _ => true
  | VNum n => is_safe_integer n
  | VArr elems => forallb is_json elems
  | VObj props =>
      forallb (fun kv => is_json (snd kv)) props
      && distinct (map fst props)
  end.

(** What may follow a value in a text: the end, a comma, or a closing
    bracket or brace. *)
Definition terminated (rest : string) : bool :=
  match rest with
  | EmptyString => true
  | String c _ =>
      let n := N_of_ascii c in ((n =? 44) || (n =? 93) || (n =? 125))%N
  end.

(** A text whose first character closes no array and no object (so that
    the text is not empty). *)
Definition opens (t : string) : Prop :=
  exists c r, t = String c r /\ N_of_ascii c <> 93%N /\ N_of_ascii c <> 125%N.

(** The values of the usable outcomes, in order: an outcome is usable
    when the consensus step keeps it, that is when the promise was
    fulfilled with a truthy value that is no Error. *)
Fixpoint usable_values (outcomes : list settled) : list value :=
  match outcomes with
  | [] => []
  | Fulfilled v :: rest =>
      if truthy v && negb (instanceof_Error v)
      then v :: usable_values rest
      else usable_values rest
  | Rejected _ :: rest => usable_values rest
  end.

(** The decision of the consensus step, without the wording of the
    errors. *)
Inductive verdict : Type :=
| NoAnswer
| Agreed (v : value)
| Unreadable
| Conflict.

Definition verdict_of (set : JSSet.t) : verdict :=
  match JSSet.size set with
  | O => NoAnswer
  | 1%nat =>
      match MultiExplorer.parse_first set with
      | Some v => Agreed v
      | None => Unreadable
      end
  | _ => Conflict
  end.

(** The promise of [blockhash] for a verdict. *)
Definition blockhash_promise (height : value) (d : verdict) : promise :=
  match d with
  | NoAnswer =>
      Settles (Rejected ("No block height " ++ ToString height ++ "found"))
  | Agreed v => Settles (Fulfilled v)
  | Unreadable => Pending
  | Conflict =>
      Settles (Rejected ("Different block height " ++ ToString height
                         ++ "found"))
  end.

(** The promise of [block] for a verdict. *)
Definition block_promise (hash : value) (d : verdict) : promise :=
  match d with
  | NoAnswer =>
      Settles (Rejected ("No block hash " ++ ToString hash ++ "found"))
  | Agreed v => Settles (Fulfilled v)
  | Unreadable => Pending
  | Conflict =>
      Settles (Rejected ("Different block hash " ++ ToString hash ++ "found"))
  end.

(** The text of an array element and of an object member, as
    [JSON.stringify] writes them. *)
Definition elem_text (e : value) : string :=
  match JSON.stringify e with Some t => t | None => "null" end.

Definition member_text (kv : string * value) : string :=
  JSON.QuoteJSONString (fst kv) ++ ":" ++ elem_text (snd kv).

(** [JSON.parse] reads [v] back from its text, whatever follows it. *)
Definition reads_back (v : value) : Prop :=
  is_json v = true ->
  forall t, JSON.stringify v = Some t ->
  forall fuel rest,
    terminated rest = true -> (String.length t <= fuel)%nat ->
    JSON.parse_value fuel (t ++ rest) = Some (v, rest).

Definition is_fulfilled (o : settled) : bool :=
  match o with Fulfilled _ => true | Rejected _ => false end.

(** [spec.type === 'insight'] *)
Definition is_insight (spec : ProviderSpec) : bool :=
  strict_eq_string (spec_type spec) "insight".

(** ** Sample inputs *)

Module Sample.

(** The hash of the genesis block of the test network and its merkle
    root, as the test file has them. *)
Definition genesis : string :=
  "000000000933ea01ad0ee984209779baaec3ced90fa3f408719526f8d77f4943".

Definition merkleroot : string :=
  "4a5e1e4baab89f3a32518a88c31bc87f618f76673e2cc77ab2127b7afdeda33b".

(** The options of the test file. *)
Definition test_options : Options :=
  {| opt_timeout := Some 11;
     opt_chain := Some "bitcoinTestnet";
     opt_explorers :=
       Some [ {| spec_url := VStr "https://blockstream.info/testnet/api";
                 spec_type := VStr "blockstream" |};
              {| spec_url := VStr "https://testnet.blockexplorer.com/api";
                 spec_type := VStr "insight" |} ] |}.

(** Two Insight servers. *)
Definition two_insight : Options :=
  {| opt_timeout := None;
     opt_chain := None;
     opt_explorers :=
       Some [ {| spec_url := VStr "https://insight.bitpay.com/api";
                 spec_type := VStr "insight" |};
              {| spec_url := VStr "https://blockexplorer.com/api";
                 spec_type := VStr "insight" |} ] |}.

(** A network on which every server answers with an empty block hash. *)
Definition empty_hash_net : transport :=
  fun _ => Body (VObj [("blockHash", VStr "")]).

(** A chain the table of public servers does not know. *)
Definition unknown_chain : Options :=
  {| opt_timeout := None;
     opt_chain := Some "dogecoin";
     opt_explorers := None |}.

(** A single entry, whose url is a number. *)
Definition single_number_url : Options :=
  {| opt_timeout := None;
     opt_chain := Some "bitcoinTestnet";
     opt_explorers :=
       Some [ {| spec_url := VNum 42; spec_type := VStr "insight" |} ] |}.

(** Two entries, the url of the second is a number. *)
Definition second_number_url : Options :=
  {| opt_timeout := None;
     opt_chain := None;
     opt_explorers :=
       Some [ {| spec_url := VStr "https://blockstream.info/api";
                 spec_type := VStr "blockstream" |};
              {| spec_url := VNum 42; spec_type := VStr "insight" |} ] |}.

(** Two entries with the empty string as url. *)
Definition empty_urls : Options :=
  {| opt_timeout := None;
     opt_chain := None;
     opt_explorers :=
       Some [ {| spec_url := VStr ""; spec_type := VStr "insight" |};
              {| spec_url := VStr ""; spec_type := VStr "blockstream" |} ] |}.

(** Two entries of a type that is neither 'insight' nor 'blockstream'. *)
Definition esplora_type : Options :=
  {| opt_timeout := None;
     opt_chain := None;
     opt_explorers :=
       Some [ {| spec_url := VStr "https://mempool.space/api";
                 spec_type := VStr "esplora" |};
              {| spec_url := VStr "https://blockstream.info/api";
                 spec_type := VUndefined |} ] |}.

(** A block in the convention of each family. *)
Definition insight_body : value :=
  VObj [("hash", VStr genesis);
        ("merkleroot", VStr merkleroot);
        ("time", VNum 1296688602)].

Definition blockstream_body : value :=
  VObj [("id", VStr genesis);
        ("timestamp", VNum 1296688602);
        ("merkle_root", VStr merkleroot)].

End Sample.

(** ** The standalone Blockstream explorer (blockstream.js) *)

Module BlockstreamExplorer.

(** An instance of [BlockstreamExplorer]: the fields [urlBlockindex],
    [urlBlock] and [timeout] the constructor sets. *)
Record t : Type := {
  this_urlBlockindex : string;
  this_urlBlock : string;
  this_timeout : Z
}.

Definition constructor (u : string) (seconds : Z) : t :=
  {| this_urlBlockindex := u ++ "/block-height";
     this_urlBlock := u ++ "/block";
     this_timeout := seconds * 1000 |}.

(** The request [blockhash] builds. *)
Definition blockhash_options (this : t) (height : value) : request :=
  {| url := this_urlBlockindex this ++ "/" ++ ToString height;
     accept := "application/json";
     timeout := this_timeout this |}.

(** The callback of [blockhash] on a body. *)
Definition blockhash_then (body : value) : settled :=
  if negb (truthy body) then Rejected "Blockstream response error body "
  else Fulfilled body.

Definition blockhash (net : transport) (this : t) (height : value)
  : io settled :=
  r <- requestPromise net (blockhash_options this height) ;;
  ret (match r with
       | Body body => blockhash_then body
       | Failed err => Rejected err
       end).

(** The request [block] builds. *)
Definition block_options (this : t) (hash : value) : request :=
  {| url := this_urlBlock this ++ "/" ++ ToString hash;
     accept := "application/json";
     timeout := this_timeout this |}.

(** The callback of [block] on a body. *)
Definition block_then (body : value) : settled :=
  if negb (truthy body) then Rejected "Blockstream response error body "
  else if negb (truthy (get body "merkle_root"))
          || negb (truthy (get body "timestamp"))
  then Rejected "Blockstream response error body "
  else Fulfilled (VObj [("merkleroot", get body "merkle_root");
                        ("time", get body "timestamp")]).

Definition block (net : transport) (this : t) (hash : value)
  : io settled :=
  r <- requestPromise net (block_options this hash) ;;
  ret (match r with
       | Body body => block_then body
       | Failed err => Rejected err
       end).

End BlockstreamExplorer.

(** ** Queries without the log *)

(** What the promise of [explorer.blockhash(height)] settles to on a
    network. *)
Definition blockhash_outcome (net : transport) (e : chain_explorer)
  (height : value) : settled :=
  fst (ChainExplorer.blockhash net e height []).

(** What the promise of [explorer.block(hash)] settles to on a network. *)
Definition block_outcome (net : transport) (e : chain_explorer)
  (hash : value) : settled :=
  fst (ChainExplorer.block net e hash []).

(** The wording of the two rejections of [blockhash] and of [block]. *)
Definition no_block_height (height : value) : promise :=
  Settles (Rejected ("No block height " ++ ToString height ++ "found")).

Definition different_block_height (height : value) : promise :=
  Settles (Rejected ("Different block height " ++ ToString height ++ "found")).

Definition no_block_hash (hash : value) : promise :=
  Settles (Rejected ("No block hash " ++ ToString hash ++ "found")).

Definition different_block_hash (hash : value) : promise :=
  Settles (Rejected ("Different block hash " ++ ToString hash ++ "found")).

(** The options without their list of explorers. *)
Definition without_explorers (o : Options) : Options :=
  {| opt_timeout := opt_timeout o;
     opt_chain := opt_chain o;
     opt_explorers := None |}.

(** The text of a url that is a string. *)
Definition url_text (v : value) : string :=
  match v with VStr u => u | _ => EmptyString end.

(** The address a query asks the server of an entry for: the url of the
    entry, the path of its family, the parameter of the query. *)
Definition blockhash_address (spec : ProviderSpec) (height : value)
  : string :=
  url_text (spec_url spec)
  ++ (if is_insight spec then "/block-index/" else "/block-height//")
  ++ ToString height.

Definition block_address (spec : ProviderSpec) (hash : value) : string :=
  url_text (spec_url spec)
  ++ (if is_insight spec then "/block/" else "/block//")
  ++ ToString hash.

(** ** A scenario: the servers of the test file *)

Module Scenario.

(** The MultiExplorer the options of the test file build. *)
Definition test_explorers : MultiExplorer.t :=
  {| MultiExplorer.explorers :=
       [new_Blockstream "https://blockstream.info/testnet/api" 11;
        new_ChainInsight "https://testnet.blockexplorer.com/api" 11] |}.

(** Two servers that know the genesis block of the test network and
    nothing else. *)
Definition test_net : transport :=
  fun r =>
    if String.eqb (url r)
         "https://blockstream.info/testnet/api/block-height//0"
    then Body (VStr Sample.genesis)
    else if String.eqb (url r)
              "https://testnet.blockexplorer.com/api/block-index/0"
    then Body (VObj [("blockHash", VStr Sample.genesis)])
    else if String.eqb (url r)
              ("https://blockstream.info/testnet/api/block//"
                 ++ Sample.genesis)
    then Body Sample.blockstream_body
    else if String.eqb (url r)
              ("https://testnet.blockexplorer.com/api/block/"
                 ++ Sample.genesis)
    then Body Sample.insight_body
    else Failed "404".

(** A network on which every request times out. *)
Definition down : transport := fun _ => Failed "ESOCKETTIMEDOUT".

(** A server that answers every request with an error object. *)
Definition not_found : transport :=
  fun _ => Body (VObj [("error", VStr "Not found")]).

(** A server that answers every request with the hash of the genesis
    block. *)
Definition genesis_only : transport := fun _ => Body (VStr Sample.genesis).

End Scenario.

(** * Properties *)

(** ** Induction on values *)

Section ValueInduction.

Variable P : value -> Prop.
Hypothesis Hundefined : P VUndefined.
Hypothesis Hnull : P VNull.
Hypothesis Hbool : forall b, P (VBool b).
Hypothesis Hnum : forall n, P (VNum n).
Hypothesis Hstr : forall s, P (VStr s).
Hypothesis Harr : forall elems, Forall P elems -> P (VArr elems).
Hypothesis Hobj :
  forall props, Forall (fun kv => P (snd kv)) props -> P (VObj props).
Hypothesis Herror : forall m, P (VError m).

Fixpoint value_ind (v : value) : P v :=
  match v with
  | VUndefined => Hundefined
  | VNull => Hnull
  | VBool b => Hbool b
  | VNum n => Hnum n
  | VStr s => Hstr s
  | VArr elems =>
      Harr elems
        ((fix go (l : list value) : Forall P l :=
            match l with
            | [] => Forall_nil P
            | e :: l' => Forall_cons e (value_ind e) (go l')
            end) elems)
  | VObj props =>
      Hobj props
        ((fix go (l : list (string * value))
            : Forall (fun kv => P (snd kv)) l :=
            match l with
            | [] => Forall_nil _
            | kv :: l' =>
                @Forall_cons _ (fun kv => P (snd kv)) kv l'
                  (value_ind (snd kv)) (go l')
            end) props)
  | VError m => Herror m
  end.

End ValueInduction.

(** ** Strings *)

Lemma append_assoc (a b c : string) : (a ++ b) ++ c = a ++ (b ++ c).
Proof.
  induction a as [|x a IH]; simpl; [reflexivity|].
  now rewrite IH.
Qed.

Lemma append_empty_r (a : string) : a ++ EmptyString = a.
Proof.
  induction a as [|x a IH]; simpl; [reflexivity|].
  now rewrite IH.
Qed.

Lemma length_append (a b : string) :
  String.length (a ++ b) = (String.length a + String.length b)%nat.
Proof.
  induction a as [|x a IH]; simpl; [reflexivity|].
  now rewrite IH.
Qed.

(** ** Reading back what [JSON.stringify] wrote *)

Section JsonRoundTrip.

Import JSON.

Lemma parse_quote_char (c : ascii) (tail : string) :
  parse_chars (quote_char c ++ tail) = cons_char c (parse_chars tail).
Proof.
  destruct c as [[] [] [] [] [] [] [] []]; reflexivity.
Qed.

Lemma parse_quote_chars (s rest : string) :
  parse_chars (quote_chars s ++ String dquote rest) = Some (s, rest).
Proof.
  induction s as [|c s IH]; simpl.
  - reflexivity.
  - rewrite append_assoc, parse_quote_char, IH. reflexivity.
Qed.

Lemma digit_of_terminated (c : ascii) (r : string) :
  terminated (String c r) = true -> digit_of c = None.
Proof.
  unfold terminated, digit_of.
  destruct (N_of_ascii c) as [|p]; [reflexivity|].
  repeat (destruct p as [p|p|]; try reflexivity; try discriminate).
Qed.

Lemma parse_digits_digit_chars (u : Decimal.uint) (rest : string) :
  terminated rest = true ->
  parse_digits (digit_chars u ++ rest) = (u, rest).
Proof.
  intros Hrest.
  induction u as [|u IH|u IH|u IH|u IH|u IH|u IH|u IH|u IH|u IH|u IH];
    try (simpl; rewrite IH; reflexivity).
  simpl. destruct rest as [|c r]; [reflexivity|].
  simpl. now rewrite (digit_of_terminated c r Hrest).
Qed.

Lemma terminated_not_fraction (rest : string) :
  terminated rest = true -> starts_fraction rest = false.
Proof.
  destruct rest as [|c r]; [reflexivity|].
  simpl. destruct (N_of_ascii c) as [|p]; [discriminate|].
  repeat (destruct p as [p|p|]; try reflexivity; try discriminate).
Qed.

Lemma int_digits_unorm (d : Decimal.uint) : int_digits (unorm d) = true.
Proof.
  unfold unorm. destruct (nzhead d) eqn:E; try reflexivity.
  exfalso. exact (nzhead_nonzero _ _ E).
Qed.

Lemma int_digits_to_uint (p : positive) : int_digits (Pos.to_uint p) = true.
Proof.
  replace (Pos.to_uint p) with (unorm (Pos.to_uint p)).
  - apply int_digits_unorm.
  - rewrite <- DecimalPos.Unsigned.to_of, DecimalPos.Unsigned.of_to.
    reflexivity.
Qed.

Lemma parse_int_to_uint (neg : bool) (p : positive) (rest : string) :
  terminated rest = true ->
  parse_int neg (digit_chars (Pos.to_uint p) ++ rest)
  = Some (VNum (if neg then Zneg p else Zpos p), rest).
Proof.
  intros Hrest. unfold parse_int.
  rewrite parse_digits_digit_chars by assumption.
  rewrite int_digits_to_uint, terminated_not_fraction by assumption.
  simpl. unfold N.of_uint. rewrite DecimalPos.Unsigned.of_to.
  now destruct neg.
Qed.

Lemma parse_number_toString (n : Z) (rest : string) :
  terminated rest = true ->
  parse_number (Number_toString n ++ rest) = Some (VNum n, rest).
Proof.
  intros Hrest. destruct n as [|p|p].
  - simpl. unfold parse_int.
    change (String "0" rest) with (digit_chars (D0 Nil) ++ rest).
    rewrite parse_digits_digit_chars by assumption.
    simpl. now rewrite terminated_not_fraction.
  - rewrite <- (parse_int_to_uint false p rest Hrest).
    simpl. pose proof (int_digits_to_uint p) as Hd.
    destruct (Pos.to_uint p); try discriminate Hd; reflexivity.
  - simpl. now rewrite parse_int_to_uint.
Qed.

(** A text that starts like a number is read as a number. *)
Lemma parse_value_number (fuel : nat) (n : Z) (tail : string) :
  parse_value (S fuel) (Number_toString n ++ tail)
  = parse_number (Number_toString n ++ tail).
Proof.
  destruct n as [|p|p]; try reflexivity.
  simpl. pose proof (int_digits_to_uint p) as Hd.
  destruct (Pos.to_uint p); try discriminate Hd; reflexivity.
Qed.

Lemma is_json_stringify (v : value) :
  is_json v = true -> exists t, stringify v = Some t.
Proof.
  destruct v as [| |[]| | | | |]; simpl; try discriminate; eauto.
Qed.


Lemma stringify_opens (v : value) (t : string) :
  stringify v = Some t -> opens t.
Proof.
  unfold opens.
  destruct v as [| |[]|n|s|l|ps|m]; simpl; intros H; try discriminate;
    injection H as <-; try (do 2 eexists; repeat split; cbv; discriminate).
  destruct n as [|p|p]; simpl;
    try (do 2 eexists; repeat split; cbv; discriminate).
  pose proof (int_digits_to_uint p) as Hd.
  destruct (Pos.to_uint p); try discriminate Hd; simpl;
    do 2 eexists; repeat split; cbv; discriminate.
Qed.

Lemma join_cons2 (sep a b : string) (l : list string) :
  join sep (a :: b :: l) = a ++ sep ++ join sep (b :: l).
Proof. reflexivity. Qed.

Lemma elem_text_stringify (e : value) (t : string) :
  stringify e = Some t -> elem_text e = t.
Proof. unfold elem_text. now intros ->. Qed.

Lemma elem_text_nonempty (e : value) : (1 <= String.length (elem_text e))%nat.
Proof.
  unfold elem_text. destruct (stringify e) as [t|] eqn:E; [|simpl; lia].
  destruct (stringify_opens e t E) as (c & r & -> & _). simpl. lia.
Qed.

Lemma parse_elements_join (l : list value) :
  Forall reads_back l -> forallb is_json l = true ->
  forall e, reads_back e -> is_json e = true ->
  forall fuel rest,
    (String.length (join "," (map elem_text (e :: l))) < fuel)%nat ->
    parse_elements fuel (join "," (map elem_text (e :: l)) ++ String "]" rest)
    = Some (e :: l, rest).
Proof.
  induction l as [|e' l IH]; intros Hall Hjson e He Hje fuel rest Hfuel.
  - cbn [map join] in *.
    destruct (is_json_stringify e Hje) as [t Ht].
    rewrite (elem_text_stringify e t Ht) in *.
    destruct fuel as [|fuel]; [lia|]. cbn [parse_elements].
    rewrite (He Hje t Ht fuel (String "]" rest)) by (reflexivity || lia).
    reflexivity.
  - cbn [map] in *. rewrite join_cons2 in *.
    rewrite !length_append in Hfuel. cbn [String.length] in Hfuel.
    destruct (is_json_stringify e Hje) as [t Ht].
    rewrite (elem_text_stringify e t Ht) in *.
    destruct fuel as [|fuel]; [lia|]. cbn [parse_elements].
    rewrite !append_assoc.
    change ("," ++ ?x) with (String "," x).
    rewrite (He Hje t Ht fuel) by (reflexivity || lia).
    cbn [forallb] in Hjson. apply andb_prop in Hjson as [Hje' Hjson].
    inversion Hall as [|? ? He' Hall']; subst.
    change (N_of_ascii ",") with 44%N. cbv iota.
    rewrite (IH Hall' Hjson e' He' Hje' fuel rest) by (cbn [map]; lia).
    reflexivity.
Qed.

Lemma member_text_nonempty (kv : string * value) :
  (1 <= String.length (member_text kv))%nat.
Proof. unfold member_text, QuoteJSONString. simpl. lia. Qed.

Lemma parse_members_join (l : list (string * value)) :
  Forall (fun kv => reads_back (snd kv)) l ->
  forallb (fun kv => is_json (snd kv)) l = true ->
  forall kv, reads_back (snd kv) -> is_json (snd kv) = true ->
  forall fuel rest,
    (String.length (join "," (map member_text (kv :: l))) < fuel)%nat ->
    parse_members fuel
      (join "," (map member_text (kv :: l)) ++ String "}" rest)
    = Some (kv :: l, rest).
Proof.
  induction l as [|kv' l IH]; intros Hall Hjson [k v] He Hje fuel rest Hfuel;
    cbn [fst snd] in *.
  - cbn [map join] in *. unfold member_text in *. cbn [fst snd] in *.
    destruct (is_json_stringify v Hje) as [t Ht].
    rewrite (elem_text_stringify v t Ht) in *.
    rewrite !length_append in Hfuel. cbn [String.length] in Hfuel.
    destruct fuel as [|fuel]; [lia|]. cbn [parse_members].
    unfold QuoteJSONString. cbn [expect append].
    rewrite Ascii.eqb_refl. rewrite !append_assoc. cbn [append].
    rewrite parse_quote_chars.
    change (N_of_ascii ":" =? 58)%N with true. cbv iota.
    rewrite (He Hje t Ht fuel (String "}" rest)) by (reflexivity || lia).
    reflexivity.
  - cbn [map] in *. rewrite join_cons2 in *.
    unfold member_text at 1. unfold member_text at 1 in Hfuel.
    cbn [fst snd] in *.
    destruct (is_json_stringify v Hje) as [t Ht].
    rewrite (elem_text_stringify v t Ht) in *.
    rewrite !length_append in Hfuel. cbn [String.length] in Hfuel.
    destruct fuel as [|fuel]; [lia|]. cbn [parse_members].
    unfold QuoteJSONString. cbn [expect append].
    rewrite Ascii.eqb_refl. rewrite !append_assoc. cbn [append].
    rewrite parse_quote_chars.
    change (N_of_ascii ":" =? 58)%N with true. cbv iota.
    rewrite (He Hje t Ht fuel) by (reflexivity || lia).
    cbn [forallb] in Hjson. apply andb_prop in Hjson as [Hje' Hjson].
    inversion Hall as [|? ? He' Hall']; subst.
    change (N_of_ascii ",") with 44%N. cbv iota.
    rewrite (IH Hall' Hjson kv' He' Hje' fuel rest) by (cbn [map]; lia).
    reflexivity.
Qed.

Lemma define_fresh (props : list (string * value)) (k : string) (v : value) :
  existsb (String.eqb k) (map fst props) = false ->
  define props k v = (props ++ [(k, v)])%list.
Proof.
  induction props as [|[k' v'] props IH]; simpl; [reflexivity|].
  intros H. apply orb_false_elim in H as [Hk H].
  rewrite Hk. now rewrite IH.
Qed.

Lemma distinct_app_cons (a : list string) (k : string) (b : list string) :
  distinct (a ++ k :: b) = true ->
  existsb (String.eqb k) a = false /\ distinct ((a ++ [k]) ++ b) = true.
Proof.
  induction a as [|x a IH]; simpl.
  - intros H. split; [reflexivity | exact H].
  - intros H. apply andb_prop in H as [Hx Hd].
    destruct (IH Hd) as [Hk Hd']. rewrite Hd', andb_true_r.
    rewrite existsb_app in Hx. simpl in Hx.
    rewrite !existsb_app. simpl.
    rewrite negb_true_iff in Hx.
    apply orb_false_elim in Hx as [Hxa Hx].
    apply orb_false_elim in Hx as [Hxk Hxb].
    rewrite Hxa, Hxk, Hxb, Hk. simpl. split; [|reflexivity].
    rewrite String.eqb_sym. now rewrite Hxk.
Qed.

Lemma fold_define (members acc : list (string * value)) :
  distinct (map fst acc ++ map fst members) = true ->
  fold_left (fun props kv => define props (fst kv) (snd kv)) members acc
  = (acc ++ members)%list.
Proof.
  revert acc. induction members as [|[k v] members IH]; intros acc H; simpl.
  - now rewrite List.app_nil_r.
  - simpl in H. apply distinct_app_cons in H as [Hk Hd].
    rewrite define_fresh by assumption.
    rewrite IH.
    + now rewrite <- List.app_assoc.
    + now rewrite List.map_app.
Qed.

Lemma object_of_distinct (props : list (string * value)) :
  distinct (map fst props) = true -> object_of props = VObj props.
Proof.
  intros H. unfold object_of. now rewrite fold_define.
Qed.

Lemma flat_map_members (props : list (string * value)) :
  forallb (fun kv => is_json (snd kv)) props = true ->
  flat_map (fun kv => match stringify (snd kv) with
                      | Some t => [QuoteJSONString (fst kv) ++ ":" ++ t]
                      | None => []
                      end) props
  = map member_text props.
Proof.
  induction props as [|[k v] props IH]; simpl; [reflexivity|].
  intros H. apply andb_prop in H as [Hv H].
  destruct (is_json_stringify v Hv) as [t Ht].
  cbn [map]. rewrite <- (IH H). unfold member_text at 1. cbn [fst snd].
  rewrite (elem_text_stringify v t Ht), Ht. reflexivity.
Qed.

Lemma map_elem_text (elems : list value) :
  map (fun e => match stringify e with
                | Some t => t
                | None => "null"
                end) elems
  = map elem_text elems.
Proof. reflexivity. Qed.

Lemma expect_close_opens (c : ascii) (t tail : string) :
  (N_of_ascii c = 93 \/ N_of_ascii c = 125)%N ->
  opens t -> expect (String c EmptyString) (t ++ tail) = None.
Proof.
  intros Hc (x & r & -> & H1 & H2). simpl.
  destruct (Ascii.eqb_spec c x) as [<-|]; [|reflexivity].
  destruct Hc; contradiction.
Qed.

Lemma opens_append (t tail : string) : opens t -> opens (t ++ tail).
Proof.
  intros (x & r & -> & H). exists x, (r ++ tail). split; [reflexivity|exact H].
Qed.

Lemma join_elem_text_opens (e : value) (l : list value) :
  is_json e = true -> opens (join "," (map elem_text (e :: l))).
Proof.
  intros He. destruct (is_json_stringify e He) as [t Ht].
  pose proof (stringify_opens e t Ht) as Ho.
  cbn [map]. rewrite (elem_text_stringify e t Ht).
  destruct l as [|e' l]; [exact Ho|].
  cbn [map]. rewrite join_cons2. now apply opens_append.
Qed.

Lemma join_member_text_opens (kv : string * value)
  (l : list (string * value)) :
  opens (join "," (map member_text (kv :: l))).
Proof.
  assert (Ho : opens (member_text kv)).
  { unfold member_text, QuoteJSONString. simpl.
    do 2 eexists. split; [reflexivity|]. split; cbv; discriminate. }
  cbn [map]. destruct l as [|kv' l]; [exact Ho|].
  cbn [map]. rewrite join_cons2. now apply opens_append.
Qed.

Lemma reads_back_all (v : value) : reads_back v.
Proof.
  induction v as [| |b|n|s|elems IH|props IH|m] using value_ind;
    unfold reads_back; intros Hjson t Ht fuel rest Hrest Hfuel;
    try discriminate Hjson.
  - injection Ht as <-. simpl in Hfuel.
    destruct fuel as [|fuel]; [lia|]. reflexivity.
  - destruct b; injection Ht as <-; simpl in Hfuel;
      (destruct fuel as [|fuel]; [lia|]); reflexivity.
  - simpl in Ht. injection Ht as <-.
    destruct (stringify_opens (VNum n) _ eq_refl) as (c & r & E & _).
    rewrite E in Hfuel. simpl in Hfuel.
    destruct fuel as [|fuel]; [lia|].
    rewrite parse_value_number. now apply parse_number_toString.
  - simpl in Ht. injection Ht as <-.
    simpl in Hfuel. destruct fuel as [|fuel]; [lia|].
    unfold QuoteJSONString. cbn [append parse_value].
    change (N_of_ascii dquote) with 34%N. cbv iota.
    rewrite append_assoc. cbn [append].
    now rewrite parse_quote_chars.
  - simpl in Ht. injection Ht as <-. rewrite map_elem_text in *.
    simpl in Hjson. cbn [append String.length] in Hfuel.
    rewrite length_append in Hfuel. cbn [String.length] in Hfuel.
    destruct fuel as [|fuel]; [lia|].
    cbn [append parse_value]. change (N_of_ascii "[") with 91%N. cbv iota.
    rewrite append_assoc. cbn [append].
    destruct elems as [|e elems]; [reflexivity|].
    rewrite (expect_close_opens "]")
      by (try (left; reflexivity); apply join_elem_text_opens;
          simpl in Hjson; now apply andb_prop in Hjson).
    simpl in Hjson. apply andb_prop in Hjson as [He Hjson].
    inversion IH as [|? ? IHe IHl]; subst.
    rewrite (parse_elements_join elems IHl Hjson e IHe He fuel rest) by lia.
    reflexivity.
  - simpl in Ht. injection Ht as <-.
    simpl in Hjson. apply andb_prop in Hjson as [Hjson Hkeys].
    rewrite flat_map_members in * by assumption.
    cbn [append String.length] in Hfuel.
    rewrite length_append in Hfuel. cbn [String.length] in Hfuel.
    destruct fuel as [|fuel]; [lia|].
    cbn [append parse_value]. change (N_of_ascii "{") with 123%N. cbv iota.
    rewrite append_assoc. cbn [append].
    destruct props as [|kv props]; [reflexivity|].
    rewrite (expect_close_opens "}")
      by (try (right; reflexivity); apply join_member_text_opens).
    simpl in Hjson. apply andb_prop in Hjson as [He Hjson].
    inversion IH as [|? ? IHe IHl]; subst.
    rewrite (parse_members_join props IHl Hjson kv IHe He fuel rest) by lia.
    now rewrite object_of_distinct.
Qed.

(** [JSON.parse(JSON.stringify(v))] is [v] for a value of a response. *)
Lemma parse_stringify (v : value) (t : string) :
  is_json v = true -> stringify v = Some t -> parse t = Some v.
Proof.
  intros Hjson Ht. unfold parse.
  pose proof (reads_back_all v Hjson t Ht (String.length t) EmptyString
                eq_refl (le_n _)) as H.
  rewrite append_empty_r in H. now rewrite H.
Qed.

End JsonRoundTrip.

(** ** The Set of answers *)

Section Answers.

Import MultiExplorer.

Lemma same_eq (x y : option string) : JSSet.same x y = true <-> x = y.
Proof.
  destruct x as [a|], y as [b|]; simpl; split; intros H;
    try discriminate; try reflexivity.
  - apply String.eqb_eq in H. now subst.
  - injection H as ->. apply String.eqb_refl.
Qed.

Lemma has_In (s : JSSet.t) (x : option string) :
  JSSet.has s x = true <-> In x s.
Proof.
  unfold JSSet.has. rewrite existsb_exists. split.
  - intros (y & Hy & E). apply same_eq in E. now subst.
  - intros H. exists x. split; [exact H | now apply same_eq].
Qed.

Lemma add_In (s : JSSet.t) (x y : option string) :
  In y (JSSet.add s x) <-> In y s \/ y = x.
Proof.
  unfold JSSet.add. destruct (JSSet.has s x) eqn:E.
  - apply has_In in E. split; [now left|]. intros [H| ->]; assumption.
  - rewrite in_app_iff. simpl. intuition congruence.
Qed.

Lemma add_NoDup (s : JSSet.t) (x : option string) :
  NoDup s -> NoDup (JSSet.add s x).
Proof.
  intros Hs. unfold JSSet.add. destruct (JSSet.has s x) eqn:E; [exact Hs|].
  apply NoDup_app; [exact Hs | repeat constructor; intros [] | ].
  intros y Hy [<-|[]]. apply has_In in Hy. congruence.
Qed.

Lemma collect_error (set : JSSet.t) (m : string) :
  collect set (VError m) = set.
Proof. reflexivity. Qed.

Lemma collect_falsy (set : JSSet.t) (v : value) :
  truthy v = false -> collect set v = set.
Proof. unfold collect. now intros ->. Qed.

(** The Set holds the texts of the usable outcomes, and nothing else. *)
Lemma fold_collect_usable (outcomes : list settled) (set : JSSet.t) :
  fold_left collect (map Utils.softFail outcomes) set
  = fold_left (fun s v => JSSet.add s (JSON.stringify v))
              (usable_values outcomes) set.
Proof.
  revert set. induction outcomes as [|[v|m] outcomes IH]; intros set; simpl.
  - reflexivity.
  - unfold collect at 2.
    destruct (truthy v && negb (instanceof_Error v)); simpl; apply IH.
  - apply IH.
Qed.

Lemma fold_add_In (vs : list value) (set : JSSet.t) (x : option string) :
  In x (fold_left (fun s v => JSSet.add s (JSON.stringify v)) vs set)
  <-> In x set \/ exists v, In v vs /\ x = JSON.stringify v.
Proof.
  revert set. induction vs as [|v vs IH]; intros set; simpl.
  - split; [now left|]. intros [H|(v & [] & _)]. exact H.
  - rewrite IH, add_In. split.
    + intros [[H|H]|(w & Hw & E)]; eauto.
    + intros [H|(w & [<-|Hw] & E)]; eauto.
Qed.

Lemma fold_add_NoDup (vs : list value) (set : JSSet.t) :
  NoDup set ->
  NoDup (fold_left (fun s v => JSSet.add s (JSON.stringify v)) vs set).
Proof.
  revert set. induction vs as [|v vs IH]; intros set Hs; simpl.
  - exact Hs.
  - apply IH. now apply add_NoDup.
Qed.

Lemma answers_In (outcomes : list settled) (x : option string) :
  In x (answers (map Utils.softFail outcomes))
  <-> exists v, In v (usable_values outcomes) /\ x = JSON.stringify v.
Proof.
  unfold answers. rewrite fold_collect_usable, fold_add_In.
  unfold JSSet.empty. simpl. intuition.
Qed.

Lemma answers_NoDup (outcomes : list settled) :
  NoDup (answers (map Utils.softFail outcomes)).
Proof.
  unfold answers. rewrite fold_collect_usable.
  apply fold_add_NoDup. constructor.
Qed.

Lemma blockhash_then_verdict (height : value) (results : list value) :
  blockhash_then height results
  = blockhash_promise height (verdict_of (answers results)).
Proof.
  unfold blockhash_then, verdict_of.
  destruct (JSSet.size (answers results)) as [|[|n]]; try reflexivity.
  now destruct (parse_first (answers results)).
Qed.

Lemma block_then_verdict (hash : value) (results : list value) :
  block_then hash results = block_promise hash (verdict_of (answers results)).
Proof.
  unfold block_then, verdict_of.
  destruct (JSSet.size (answers results)) as [|[|n]]; try reflexivity.
  now destruct (parse_first (answers results)).
Qed.

(** No usable outcome: the Set is empty. *)
Lemma verdict_none (outcomes : list settled) :
  usable_values outcomes = [] ->
  verdict_of (answers (map Utils.softFail outcomes)) = NoAnswer.
Proof.
  intros H. unfold answers. rewrite fold_collect_usable, H. reflexivity.
Qed.

(** Texts of distinct values of a response are distinct. *)
Lemma stringify_inj (v w : value) :
  is_json v = true -> is_json w = true ->
  JSON.stringify v = JSON.stringify w -> v = w.
Proof.
  intros Hv Hw E.
  destruct (is_json_stringify v Hv) as [t Ht].
  pose proof (parse_stringify v t Hv Ht) as Pv.
  rewrite E in Ht.
  pose proof (parse_stringify w t Hw Ht) as Pw.
  congruence.
Qed.

(** The usable outcomes all carry [V]: the Set holds the text of [V]
    alone, and it reads back as [V]. *)
Lemma verdict_agreed (outcomes : list settled) (V : value) :
  is_json V = true ->
  In V (usable_values outcomes) ->
  (forall W, In W (usable_values outcomes) -> W = V) ->
  verdict_of (answers (map Utils.softFail outcomes)) = Agreed V.
Proof.
  intros HV Hin Hall.
  destruct (is_json_stringify V HV) as [t Ht].
  assert (Hset : answers (map Utils.softFail outcomes) = [Some t]).
  { pose proof (answers_NoDup outcomes) as Hnd.
    pose proof (answers_In outcomes) as HIn.
    destruct (answers (map Utils.softFail outcomes)) as [|x [|y set]].
    - exfalso. apply (proj2 (HIn (Some t))). exists V. now split.
    - destruct (proj1 (HIn x) (or_introl eq_refl)) as (W & HW & ->).
      pose proof (Hall W HW) as EW. subst W. now rewrite Ht.
    - exfalso.
      destruct (proj1 (HIn x) (or_introl eq_refl)) as (W & HW & ->).
      destruct (proj1 (HIn y) (or_intror (or_introl eq_refl)))
        as (W' & HW' & ->).
      pose proof (Hall W HW) as EW. pose proof (Hall W' HW') as EW'.
      subst W W'. inversion Hnd as [|? ? Hx _]. apply Hx. now left. }
  rewrite Hset. unfold verdict_of, parse_first. simpl.
  now rewrite (parse_stringify V t HV Ht).
Qed.

(** Two usable outcomes carry different values: the Set holds two texts
    at least. *)
Lemma verdict_conflict (outcomes : list settled) (V W : value) :
  is_json V = true -> is_json W = true ->
  In V (usable_values outcomes) -> In W (usable_values outcomes) ->
  V <> W ->
  verdict_of (answers (map Utils.softFail outcomes)) = Conflict.
Proof.
  intros HV HW HinV HinW Hneq.
  assert (HtV : In (JSON.stringify V) (answers (map Utils.softFail outcomes)))
    by (apply answers_In; eauto).
  assert (HtW : In (JSON.stringify W) (answers (map Utils.softFail outcomes)))
    by (apply answers_In; eauto).
  assert (Hdiff : JSON.stringify V <> JSON.stringify W)
    by (intros E; apply Hneq; now apply stringify_inj).
  unfold verdict_of, JSSet.size.
  destruct (answers (map Utils.softFail outcomes)) as [|x [|y set]].
  - destruct HtV.
  - destruct HtV as [E1|[]], HtW as [E2|[]]. congruence.
  - reflexivity.
Qed.

(** The verdict does not depend on the order of the outcomes. *)
Lemma usable_values_Permutation (a b : list settled) :
  Permutation a b -> Permutation (usable_values a) (usable_values b).
Proof.
  induction 1 as [|x a b _ IH|x y a|a b c _ IH1 _ IH2].
  - constructor.
  - destruct x as [v|m]; simpl; [|exact IH].
    destruct (truthy v && negb (instanceof_Error v)); [now constructor|exact IH].
  - destruct x as [v|m], y as [w|m']; simpl;
      try destruct (truthy v && negb (instanceof_Error v));
      try destruct (truthy w && negb (instanceof_Error w));
      try apply Permutation_refl; apply perm_swap.
  - now transitivity (usable_values b).
Qed.

Lemma verdict_Permutation (a b : list settled) :
  Permutation a b ->
  verdict_of (answers (map Utils.softFail a))
  = verdict_of (answers (map Utils.softFail b)).
Proof.
  intros Hab.
  assert (Hsets : Permutation (answers (map Utils.softFail a))
                              (answers (map Utils.softFail b))).
  { apply NoDup_Permutation; try apply answers_NoDup.
    intros x. rewrite !answers_In.
    apply usable_values_Permutation in Hab.
    split; intros (v & Hv & E); exists v; split; try exact E.
    - now apply (Permutation_in _ Hab).
    - now apply (Permutation_in _ (Permutation_sym Hab)). }
  unfold verdict_of, JSSet.size.
  rewrite (Permutation_length Hsets).
  destruct (answers (map Utils.softFail b)) as [|y [|z set]] eqn:Eb;
    try reflexivity.
  apply Permutation_sym, Permutation_length_1_inv in Hsets.
  now rewrite Hsets.
Qed.

End Answers.

(** ** The consensus decision *)

Section Consensus.

Import MultiExplorer.

Lemma usable_values_In (outcomes : list settled) (V : value) :
  In V (usable_values outcomes)
  <-> In (Fulfilled V) outcomes
      /\ truthy V && negb (instanceof_Error V) = true.
Proof.
  induction outcomes as [|[v|m] outcomes IH]; simpl.
  - tauto.
  - destruct (truthy v && negb (instanceof_Error v)) eqn:E; simpl;
      rewrite IH; split.
    + intros [->|[H1 H2]]; auto.
    + intros [[H|H] H2]; [left; congruence | auto].
    + intros [H1 H2]; auto.
    + intros [[H|H] H2]; [|auto]. injection H as ->. congruence.
  - rewrite IH. split; intros [H1 H2]; auto.
    destruct H1 as [H1|H1]; [discriminate|auto].
Qed.

Lemma is_json_kept (V : value) :
  is_json V = true -> negb (instanceof_Error V) = true.
Proof. destruct V; simpl; congruence. Qed.

Lemma usable_values_fulfilled (outcomes : list settled) :
  usable_values (filter is_fulfilled outcomes) = usable_values outcomes.
Proof.
  induction outcomes as [|[v|m] outcomes IH]; simpl; [reflexivity| |exact IH].
  now rewrite IH.
Qed.

Lemma answers_usable (outcomes : list settled) :
  answers (map Utils.softFail outcomes)
  = fold_left (fun s v => JSSet.add s (JSON.stringify v))
              (usable_values outcomes) JSSet.empty.
Proof. unfold answers. apply fold_collect_usable. Qed.

(** C1 (amended).  The decision of a query follows the three-way rule on
    the values of the usable outcomes, those fulfilled with a truthy
    value (an outcome fulfilled with a falsy value is left out, like a
    rejected one): when there is none the promise is rejected with the
    "No block ... found" error; when they all carry one value the promise
    is fulfilled with that value; when two of them carry different values
    the promise is rejected with the "Different block ... found" error,
    which names the query parameter.  The values are values of a
    response. *)
Theorem consensus_rule (query : value) (outcomes : list settled) :
  Forall (fun v => is_json v = true) (usable_values outcomes) ->
  (usable_values outcomes = [] ->
   blockhash_then query (map Utils.softFail outcomes)
   = Settles (Rejected ("No block height " ++ ToString query ++ "found"))
   /\ block_then query (map Utils.softFail outcomes)
      = Settles (Rejected ("No block hash " ++ ToString query ++ "found")))
  /\ (forall V,
        In V (usable_values outcomes) ->
        (forall W, In W (usable_values outcomes) -> W = V) ->
        blockhash_then query (map Utils.softFail outcomes)
        = Settles (Fulfilled V)
        /\ block_then query (map Utils.softFail outcomes)
           = Settles (Fulfilled V))
  /\ (forall V W,
        In V (usable_values outcomes) -> In W (usable_values outcomes) ->
        V <> W ->
        blockhash_then query (map Utils.softFail outcomes)
        = Settles (Rejected ("Different block height " ++ ToString query
                             ++ "found"))
        /\ block_then query (map Utils.softFail outcomes)
           = Settles (Rejected ("Different block hash " ++ ToString query
                                ++ "found"))).
Proof.
  intros Hjson.
  rewrite Forall_forall in Hjson.
  rewrite blockhash_then_verdict, block_then_verdict.
  split; [|split].
  - intros H. now rewrite (verdict_none outcomes H).
  - intros V HV Hall.
    now rewrite (verdict_agreed outcomes V (Hjson V HV) HV Hall).
  - intros V W HV HW Hneq.
    now rewrite (verdict_conflict outcomes V W (Hjson V HV) (Hjson W HW)
                   HV HW Hneq).
Qed.

(** The rejected outcomes do not weigh on the decision: it is the one
    taken on the fulfilled outcomes alone. *)
Lemma rejections_absorbed (query : value) (outcomes : list settled) :
  blockhash_then query (map Utils.softFail outcomes)
  = blockhash_then query (map Utils.softFail (filter is_fulfilled outcomes))
  /\ block_then query (map Utils.softFail outcomes)
     = block_then query (map Utils.softFail (filter is_fulfilled outcomes)).
Proof.
  rewrite !blockhash_then_verdict, !block_then_verdict.
  rewrite !answers_usable, usable_values_fulfilled. now split.
Qed.

(** C2 (amended).  When some explorers fail and every explorer that
    succeeds returns the same truthy value [V] (a value of a response),
    at least one of them succeeding, the query is fulfilled with [V];
    and the failures never weigh on the decision, which is the one taken
    on the fulfilled outcomes alone. *)
Theorem partial_failure_tolerance (query V : value)
  (outcomes : list settled) :
  truthy V = true -> is_json V = true ->
  In (Fulfilled V) outcomes ->
  (forall W, In (Fulfilled W) outcomes -> W = V) ->
  (blockhash_then query (map Utils.softFail outcomes) = Settles (Fulfilled V)
   /\ block_then query (map Utils.softFail outcomes) = Settles (Fulfilled V))
  /\ (blockhash_then query (map Utils.softFail outcomes)
      = blockhash_then query
          (map Utils.softFail (filter is_fulfilled outcomes))
      /\ block_then query (map Utils.softFail outcomes)
         = block_then query
             (map Utils.softFail (filter is_fulfilled outcomes))).
Proof.
  intros Htruthy Hjson Hin Hall.
  split; [|apply rejections_absorbed].
  rewrite blockhash_then_verdict, block_then_verdict.
  assert (HV : In V (usable_values outcomes)).
  { apply usable_values_In. split; [exact Hin|].
    now rewrite Htruthy, (is_json_kept V Hjson). }
  assert (Hsame : forall W, In W (usable_values outcomes) -> W = V).
  { intros W HW. apply usable_values_In in HW as [HW _]. now apply Hall. }
  rewrite (verdict_agreed outcomes V Hjson HV Hsame). now split.
Qed.

(** C3.  The decision of a query (which of fulfilment, the no-answer
    rejection and the conflict rejection occurs, and the value of a
    fulfilment) is the same for two lists of outcomes that are
    permutations of each other. *)
Theorem decision_order_independent (query : value) (a b : list settled) :
  Permutation a b ->
  blockhash_then query (map Utils.softFail a)
  = blockhash_then query (map Utils.softFail b)
  /\ block_then query (map Utils.softFail a)
     = block_then query (map Utils.softFail b).
Proof.
  intros Hab.
  rewrite !blockhash_then_verdict, !block_then_verdict.
  now rewrite (verdict_Permutation a b Hab).
Qed.

Lemma answers_replace_falsy (v : value) (m : string)
  (before after : list settled) :
  truthy v = false ->
  answers (map Utils.softFail (before ++ Fulfilled v :: after))
  = answers (map Utils.softFail (before ++ Rejected m :: after)).
Proof.
  intros Hv. rewrite !answers_usable. f_equal.
  induction before as [|[w|m'] before IH]; simpl.
  - now rewrite Hv.
  - now rewrite IH.
  - exact IH.
Qed.

(** C10.  An outcome fulfilled with a falsy value counts exactly as a
    rejected one: putting a rejection in its place changes the decision
    of neither query; and when every explorer is fulfilled with a falsy
    value, the query is rejected with the "No block ... found" error. *)
Theorem falsy_success_discarded (query : value) :
  (forall (v : value) (m : string) (before after : list settled),
      truthy v = false ->
      blockhash_then query
        (map Utils.softFail (before ++ Fulfilled v :: after))
      = blockhash_then query
          (map Utils.softFail (before ++ Rejected m :: after))
      /\ block_then query
           (map Utils.softFail (before ++ Fulfilled v :: after))
         = block_then query
             (map Utils.softFail (before ++ Rejected m :: after)))
  /\ (forall outcomes : list settled,
        (forall o, In o outcomes ->
                   exists v, o = Fulfilled v /\ truthy v = false) ->
        blockhash_then query (map Utils.softFail outcomes)
        = Settles (Rejected ("No block height " ++ ToString query ++ "found"))
        /\ block_then query (map Utils.softFail outcomes)
           = Settles (Rejected ("No block hash " ++ ToString query
                                ++ "found"))).
Proof.
  split.
  - intros v m before after Hv.
    rewrite !blockhash_then_verdict, !block_then_verdict.
    now rewrite (answers_replace_falsy v m before after Hv).
  - intros outcomes Hall.
    rewrite blockhash_then_verdict, block_then_verdict.
    assert (H : usable_values outcomes = []).
    { induction outcomes as [|o outcomes IH]; [reflexivity|].
      destruct (Hall o (or_introl eq_refl)) as (v & -> & Hv).
      simpl. rewrite Hv. simpl. apply IH.
      intros o Ho. apply Hall. now right. }
    now rewrite (verdict_none outcomes H).
Qed.

End Consensus.

(** ** The normalisers of block information *)

Section Normalisers.

Lemma truthy_get (body : value) (k : string) :
  truthy (get body k) = true -> truthy body = true.
Proof. destruct body; simpl; congruence. Qed.

Lemma ChainInsight_parseBlockInfo_then_ok (body : value) :
  truthy (get body "merkleroot") = true ->
  truthy (get body "time") = true ->
  ChainInsight.parseBlockInfo_then body
  = Fulfilled (VObj [("merkleroot", get body "merkleroot");
                     ("time", get body "time")]).
Proof.
  intros Hm Ht. unfold ChainInsight.parseBlockInfo_then.
  now rewrite (truthy_get body _ Hm), Hm, Ht.
Qed.

Lemma Blockstream_parseBlockInfo_then_ok (body : value) :
  truthy (get body "merkle_root") = true ->
  truthy (get body "timestamp") = true ->
  Blockstream.parseBlockInfo_then body
  = Fulfilled (VObj [("merkleroot", get body "merkle_root");
                     ("time", get body "timestamp")]).
Proof.
  intros Hm Ht. unfold Blockstream.parseBlockInfo_then.
  now rewrite (truthy_get body _ Hm), Hm, Ht.
Qed.

Lemma ChainInsight_parseBlockInfo_then_inv (body info : value) :
  ChainInsight.parseBlockInfo_then body = Fulfilled info ->
  truthy body = true
  /\ truthy (get body "merkleroot") = true
  /\ truthy (get body "time") = true.
Proof.
  unfold ChainInsight.parseBlockInfo_then.
  destruct (truthy body); simpl; [|discriminate].
  destruct (truthy (get body "merkleroot")); simpl; [|discriminate].
  destruct (truthy (get body "time")); simpl; [|discriminate].
  auto.
Qed.

Lemma Blockstream_parseBlockInfo_then_inv (body info : value) :
  Blockstream.parseBlockInfo_then body = Fulfilled info ->
  truthy body = true
  /\ truthy (get body "merkle_root") = true
  /\ truthy (get body "timestamp") = true.
Proof.
  unfold Blockstream.parseBlockInfo_then.
  destruct (truthy body); simpl; [|discriminate].
  destruct (truthy (get body "merkle_root")); simpl; [|discriminate].
  destruct (truthy (get body "timestamp")); simpl; [|discriminate].
  auto.
Qed.

(** C4.  A body in the Insight convention ([merkleroot], [time]) and a
    body in the Blockstream convention ([merkle_root], [timestamp]) that
    carry the same merkle root and the same time are normalised alike:
    one callback is fulfilled with a block information exactly when the
    other is fulfilled with the same one, and for a truthy pair both are
    fulfilled with the object of that merkle root and that time. *)
Theorem normalisers_agree (bodyA bodyB : value) :
  get bodyA "merkleroot" = get bodyB "merkle_root" ->
  get bodyA "time" = get bodyB "timestamp" ->
  (forall info,
      ChainInsight.parseBlockInfo_then bodyA = Fulfilled info
      <-> Blockstream.parseBlockInfo_then bodyB = Fulfilled info)
  /\ (truthy (get bodyA "merkleroot") = true ->
      truthy (get bodyA "time") = true ->
      ChainInsight.parseBlockInfo_then bodyA
      = Fulfilled (VObj [("merkleroot", get bodyA "merkleroot");
                         ("time", get bodyA "time")])
      /\ Blockstream.parseBlockInfo_then bodyB
         = Fulfilled (VObj [("merkleroot", get bodyA "merkleroot");
                            ("time", get bodyA "time")])).
Proof.
  intros Em Et. split.
  - intros info. split; intros H.
    + destruct (ChainInsight_parseBlockInfo_then_inv _ _ H) as (_ & Hm & Ht).
      rewrite (ChainInsight_parseBlockInfo_then_ok bodyA Hm Ht) in H.
      rewrite Em in Hm. rewrite Et in Ht.
      rewrite (Blockstream_parseBlockInfo_then_ok bodyB Hm Ht).
      now rewrite <- Em, <- Et.
    + destruct (Blockstream_parseBlockInfo_then_inv _ _ H) as (_ & Hm & Ht).
      rewrite (Blockstream_parseBlockInfo_then_ok bodyB Hm Ht) in H.
      rewrite <- Em in Hm. rewrite <- Et in Ht.
      rewrite (ChainInsight_parseBlockInfo_then_ok bodyA Hm Ht).
      now rewrite Em, Et.
  - intros Hm Ht. split.
    + now apply ChainInsight_parseBlockInfo_then_ok.
    + rewrite Em, Et in *. now apply Blockstream_parseBlockInfo_then_ok.
Qed.

(** C5.  On every body each normaliser of block information either is
    rejected with its response error, the body being absent or falsy or
    one of the two fields being missing or falsy, or is fulfilled with
    an object that holds both fields, taken from the body and truthy. *)
Theorem parseBlockInfo_all_or_nothing (body : value) :
  ((ChainInsight.parseBlockInfo_then body
    = Rejected "Insight response error body "
    /\ (truthy body = false
        \/ truthy (get body "merkleroot") = false
        \/ truthy (get body "time") = false))
   \/ (ChainInsight.parseBlockInfo_then body
       = Fulfilled (VObj [("merkleroot", get body "merkleroot");
                          ("time", get body "time")])
       /\ truthy body = true
       /\ truthy (get body "merkleroot") = true
       /\ truthy (get body "time") = true))
  /\ ((Blockstream.parseBlockInfo_then body
       = Rejected "Blockstream response error body "
       /\ (truthy body = false
           \/ truthy (get body "merkle_root") = false
           \/ truthy (get body "timestamp") = false))
      \/ (Blockstream.parseBlockInfo_then body
          = Fulfilled (VObj [("merkleroot", get body "merkle_root");
                             ("time", get body "timestamp")])
          /\ truthy body = true
          /\ truthy (get body "merkle_root") = true
          /\ truthy (get body "timestamp") = true)).
Proof.
  unfold ChainInsight.parseBlockInfo_then, Blockstream.parseBlockInfo_then.
  destruct (truthy body); simpl.
  - split.
    + destruct (truthy (get body "merkleroot")); simpl; [|left; auto].
      destruct (truthy (get body "time")); simpl; [right; auto|left; auto].
    + destruct (truthy (get body "merkle_root")); simpl; [|left; auto].
      destruct (truthy (get body "timestamp")); simpl; [right; auto|left; auto].
  - split; left; auto.
Qed.

End Normalisers.

(** ** Construction of a MultiExplorer *)

Section Construction.

Import MultiExplorer.

Lemma make_string (timeout : Z) (spec : ProviderSpec) :
  typeof_string (spec_url spec) = true ->
  exists i, make timeout spec = inr i
            /\ kind i = (if is_insight spec then Insight else BlockstreamApi).
Proof.
  unfold make, is_insight. destruct (spec_url spec); try discriminate.
  intros _. destruct (spec_type spec) as [| |b|n|ty|a|o|m]; simpl;
    try (eexists; split; reflexivity);
    try (rewrite andb_false_r; eexists; split; reflexivity).
  destruct (String.eqb ty "insight") eqn:E.
  - assert (Ht : negb (String.eqb ty "") = true).
    { apply String.eqb_eq in E. now subst ty. }
    rewrite Ht. simpl. eexists; split; reflexivity.
  - rewrite andb_false_r. eexists; split; reflexivity.
Qed.

Lemma make_not_string (timeout : Z) (spec : ProviderSpec) :
  typeof_string (spec_url spec) = false ->
  make timeout spec = inl (TypeError "URL must be a string").
Proof.
  unfold make. destruct (spec_url spec); try discriminate; reflexivity.
Qed.

Lemma push_all_not_string (timeout : Z) (l : list ProviderSpec)
  (acc : list chain_explorer) :
  (exists spec, In spec l /\ typeof_string (spec_url spec) = false) ->
  push_all timeout l acc = inl (TypeError "URL must be a string").
Proof.
  revert acc. induction l as [|spec l IH]; intros acc (bad & Hin & Hbad).
  - destruct Hin.
  - simpl. destruct (typeof_string (spec_url spec)) eqn:E.
    + destruct (make_string timeout spec E) as (i & -> & _).
      apply IH. exists bad. split; [|exact Hbad].
      destruct Hin as [->|Hin]; [congruence|exact Hin].
    + now rewrite (make_not_string timeout spec E).
Qed.

Lemma push_all_strings (timeout : Z) (l : list ProviderSpec)
  (acc : list chain_explorer) :
  (forall spec, In spec l -> typeof_string (spec_url spec) = true) ->
  exists es,
    push_all timeout l acc = inr (acc ++ es)%list
    /\ map kind es
       = map (fun spec => if is_insight spec then Insight else BlockstreamApi)
             l.
Proof.
  revert acc. induction l as [|spec l IH]; intros acc Hall.
  - exists []. simpl. now rewrite List.app_nil_r.
  - simpl. destruct (make_string timeout spec (Hall spec (or_introl eq_refl)))
      as (i & -> & Hk).
    destruct (IH (acc ++ [i])%list) as (es & -> & Hks).
    { intros s Hs. apply Hall. now right. }
    exists (i :: es). rewrite <- List.app_assoc. simpl.
    split; [reflexivity|]. now rewrite Hk, Hks.
Qed.

Lemma push_all_insight (timeout : Z) (urls : list string)
  (acc : list chain_explorer) :
  push_all timeout
    (map (fun u => {| spec_url := VStr u; spec_type := VStr "insight" |}) urls)
    acc
  = inr (acc ++ map (fun u => new_ChainInsight u timeout) urls)%list.
Proof.
  revert acc. induction urls as [|u urls IH]; intros acc; simpl.
  - now rewrite List.app_nil_r.
  - unfold make. simpl. rewrite IH. now rewrite <- List.app_assoc.
Qed.

Lemma explorersOptionSet_given (options : Options) (l : list ProviderSpec) :
  opt_explorers options = Some l -> (2 <= List.length l)%nat ->
  explorersOptionSet (Some options) = true
  /\ explorers_option (Some options) = l.
Proof.
  intros E Hlen. unfold explorersOptionSet, explorers_option. rewrite E.
  split; [|reflexivity]. apply Nat.ltb_lt. lia.
Qed.

(** C6 (amended).  When the list of explorers is left out or has fewer
    than two entries, and the table of public servers has a list for the
    chain (the chain of the options, "bitcoin" when none is given), the
    MultiExplorer is built from that list, every server as a ChainInsight
    with the timeout of the options. *)
Theorem defaults_from_registry (options : option Options)
  (urls : list string) :
  (forall o l, options = Some o -> opt_explorers o = Some l ->
               (List.length l < 2)%nat) ->
  publicChainInsightUrls (chain_of options) = Some urls ->
  constructor options
  = inr {| explorers :=
             map (fun u => new_ChainInsight u (timeout_of options)) urls |}
  /\ chain_of None = "bitcoin".
Proof.
  intros Hshort Hurls. split; [|reflexivity].
  assert (Hset : explorersOptionSet options = false).
  { unfold explorersOptionSet. destruct options as [o|]; [|reflexivity].
    destruct (opt_explorers o) as [l|] eqn:E; [|reflexivity].
    specialize (Hshort o l eq_refl E). apply Nat.ltb_ge. lia. }
  unfold constructor. rewrite Hset, Hurls.
  now rewrite push_all_insight.
Qed.

Lemma Client_throws (net : transport) (options : option Options)
  (query : value) (log : list request) (e : exn) :
  constructor options = inl e ->
  Client.blockhash net options query log = (inl e, log)
  /\ Client.block net options query log = (inl e, log).
Proof.
  intros H. unfold Client.blockhash, Client.block. now rewrite H.
Qed.

(** C7 (amended).  When the options hold a list of two explorers or more
    and the url of one of them is not a string, the constructor throws
    the TypeError "URL must be a string"; a caller that builds the
    MultiExplorer and then queries it gets that exception and no request
    has gone out. *)
Theorem non_string_url_throws (net : transport) (options : Options)
  (l : list ProviderSpec) (query : value) (log : list request) :
  opt_explorers options = Some l -> (2 <= List.length l)%nat ->
  (exists spec, In spec l /\ typeof_string (spec_url spec) = false) ->
  constructor (Some options) = inl (TypeError "URL must be a string")
  /\ Client.blockhash net (Some options) query log
     = (inl (TypeError "URL must be a string"), log)
  /\ Client.block net (Some options) query log
     = (inl (TypeError "URL must be a string"), log).
Proof.
  intros E Hlen Hbad.
  assert (H : constructor (Some options)
              = inl (TypeError "URL must be a string")).
  { destruct (explorersOptionSet_given options l E Hlen) as [Hset Hl].
    unfold constructor. rewrite Hset, Hl.
    now rewrite (push_all_not_string _ l [] Hbad). }
  split; [exact H|]. now apply Client_throws.
Qed.

(** C8 (amended).  For a list of two explorers or more, the constructor
    throws exactly when the url of some entry is not a string; a url
    that is a string is accepted whatever its text, the empty string
    included. *)
Theorem throws_iff_non_string_url (options : Options)
  (l : list ProviderSpec) :
  opt_explorers options = Some l -> (2 <= List.length l)%nat ->
  ((exists e, constructor (Some options) = inl e)
   <-> (exists spec, In spec l /\ typeof_string (spec_url spec) = false))
  /\ ((forall spec, In spec l -> typeof_string (spec_url spec) = true) ->
      exists m, constructor (Some options) = inr m).
Proof.
  intros E Hlen.
  destruct (explorersOptionSet_given options l E Hlen) as [Hset Hl].
  assert (Hgood : (forall spec, In spec l ->
                                typeof_string (spec_url spec) = true) ->
                  exists m, constructor (Some options) = inr m).
  { intros Hall. unfold constructor. rewrite Hset, Hl.
    destruct (push_all_strings (timeout_of (Some options)) l [] Hall)
      as (es & -> & _).
    eexists. reflexivity. }
  split; [|exact Hgood]. split.
  - intros [e He].
    destruct (existsb (fun spec => negb (typeof_string (spec_url spec))) l)
      eqn:Ex.
    + apply existsb_exists in Ex as (spec & Hin & Hs).
      exists spec. split; [exact Hin|]. now apply negb_true_iff.
    + exfalso. destruct Hgood as [m Hm]; [|congruence].
      intros spec Hin.
      destruct (typeof_string (spec_url spec)) eqn:Es; [reflexivity|].
      assert (Ht : existsb (fun spec => negb (typeof_string (spec_url spec))) l
                   = true)
        by (apply existsb_exists; exists spec; split;
            [exact Hin | now rewrite Es]).
      congruence.
  - intros Hbad. exists (TypeError "URL must be a string").
    unfold constructor. rewrite Hset, Hl.
    now rewrite (push_all_not_string _ l [] Hbad).
Qed.

(** C9 (amended).  The constructor never throws on account of the type
    of an entry: for a list of two explorers or more whose urls are
    strings it builds one explorer per entry, in order, a ChainInsight
    for the type 'insight' and a Blockstream for every other type, known
    or not, and for an entry without type. *)
Theorem other_type_is_blockstream (options : Options)
  (l : list ProviderSpec) :
  opt_explorers options = Some l -> (2 <= List.length l)%nat ->
  (forall spec, In spec l -> typeof_string (spec_url spec) = true) ->
  exists m,
    constructor (Some options) = inr m
    /\ map kind (explorers m)
       = map (fun spec => if is_insight spec then Insight else BlockstreamApi)
             l.
Proof.
  intros E Hlen Hall.
  destruct (explorersOptionSet_given options l E Hlen) as [Hset Hl].
  unfold constructor. rewrite Hset, Hl.
  destruct (push_all_strings (timeout_of (Some options)) l [] Hall)
    as (es & -> & Hk).
  eexists. split; [reflexivity|exact Hk].
Qed.

End Construction.

(** ** Queries, requests and results *)

Section Queries.

(** A normaliser sends its request, then runs its callback on the body,
    or hands on the error of the transport. *)
Lemma parseBlockInfo_run (net : transport) (options : request)
  (log : list request) :
  ChainInsight.parseBlockInfo net options log
  = (match net options with
     | Body body => ChainInsight.parseBlockInfo_then body
     | Failed err => Rejected err
     end, (log ++ [options])%list)
  /\ Blockstream.parseBlockInfo net options log
     = (match net options with
        | Body body => Blockstream.parseBlockInfo_then body
        | Failed err => Rejected err
        end, (log ++ [options])%list).
Proof. split; reflexivity. Qed.

Lemma forEach_blockhash_requests (net : transport) (height : value)
  (es : list chain_explorer) (log : list request) :
  snd (forEach (fun e => ChainExplorer.blockhash net e height) es log)
  = (log ++ map (fun e => ChainExplorer.blockhash_options e height) es)%list.
Proof.
  revert log. induction es as [|e es IH]; intros log.
  - simpl. now rewrite List.app_nil_r.
  - cbn [forEach map]. unfold bind at 1.
    assert (H : forall l,
               snd (ChainExplorer.blockhash net e height l)
               = (l ++ [ChainExplorer.blockhash_options e height])%list).
    { intros l. unfold ChainExplorer.blockhash.
      destruct (kind e); reflexivity. }
    destruct (ChainExplorer.blockhash net e height log) as [o log'] eqn:E.
    pose proof (H log) as Hlog. rewrite E in Hlog. simpl in Hlog. subst log'.
    unfold bind.
    specialize (IH (log ++ [ChainExplorer.blockhash_options e height])%list).
    destruct (forEach _ es _) as [os log'']. simpl in *. subst log''.
    now rewrite <- List.app_assoc.
Qed.

(** A query sends one request per explorer, in the order of the
    explorers, and decides on what they settle to. *)
Lemma blockhash_run (net : transport) (this : MultiExplorer.t)
  (height : value) (log : list request) :
  MultiExplorer.blockhash net this height log
  = (MultiExplorer.blockhash_then height
       (map Utils.softFail
            (fst (MultiExplorer.blockhash_all net this height log))),
     (log ++ map (fun e => ChainExplorer.blockhash_options e height)
                 (MultiExplorer.explorers this))%list).
Proof.
  unfold MultiExplorer.blockhash, MultiExplorer.blockhash_all, bind.
  pose proof (forEach_blockhash_requests net height
                (MultiExplorer.explorers this) log) as H.
  destruct (forEach _ (MultiExplorer.explorers this) log) as [os log'].
  simpl in *. now subst log'.
Qed.

Lemma forEach_block_requests (net : transport) (hash : value)
  (es : list chain_explorer) (log : list request) :
  snd (forEach (fun e => ChainExplorer.block net e hash) es log)
  = (log ++ map (fun e => ChainExplorer.block_options e hash) es)%list.
Proof.
  revert log. induction es as [|e es IH]; intros log.
  - simpl. now rewrite List.app_nil_r.
  - cbn [forEach map]. unfold bind at 1.
    assert (H : forall l, snd (ChainExplorer.block net e hash l)
                          = (l ++ [ChainExplorer.block_options e hash])%list).
    { intros l. unfold ChainExplorer.block.
      destruct (kind e); reflexivity. }
    destruct (ChainExplorer.block net e hash log) as [o log'] eqn:E.
    pose proof (H log) as Hlog. rewrite E in Hlog. simpl in Hlog. subst log'.
    unfold bind.
    specialize (IH (log ++ [ChainExplorer.block_options e hash])%list).
    destruct (forEach _ es _) as [os log'']. simpl in *. subst log''.
    now rewrite <- List.app_assoc.
Qed.

Lemma block_run (net : transport) (this : MultiExplorer.t)
  (hash : value) (log : list request) :
  MultiExplorer.block net this hash log
  = (MultiExplorer.block_then hash
       (map Utils.softFail
            (fst (MultiExplorer.block_all net this hash log))),
     (log ++ map (fun e => ChainExplorer.block_options e hash)
                 (MultiExplorer.explorers this))%list).
Proof.
  unfold MultiExplorer.block, MultiExplorer.block_all, bind.
  pose proof (forEach_block_requests net hash
                (MultiExplorer.explorers this) log) as H.
  destruct (forEach _ (MultiExplorer.explorers this) log) as [os log'].
  simpl in *. now subst log'.
Qed.

End Queries.

(** ** The properties on sample inputs *)

Section Samples.

Import MultiExplorer.

(** Two Insight servers answer with the same, empty, block hash: both
    explorers are fulfilled with that one value, and the query is
    rejected instead of being fulfilled with it. *)
Lemma consensus_rule_empty_hash :
  fst (blockhash_all Sample.empty_hash_net
         {| explorers := [new_ChainInsight "https://insight.bitpay.com/api" 10;
                          new_ChainInsight "https://blockexplorer.com/api" 10] |}
         (VNum 0) [])
  = [Fulfilled (VStr ""); Fulfilled (VStr "")]
  /\ fst (Client.blockhash Sample.empty_hash_net (Some Sample.two_insight)
            (VNum 0) [])
     = inr (Settles (Rejected "No block height 0found"))
  /\ blockhash_then (VNum 0)
       (map Utils.softFail [Fulfilled (VStr ""); Fulfilled (VStr "")])
     <> Settles (Fulfilled (VStr "")).
Proof.
  split; [reflexivity|]. split; [reflexivity|]. discriminate.
Qed.

Lemma consensus_rule_witness :
  (blockhash_then (VNum 0)
     (map Utils.softFail [Rejected "ESOCKETTIMEDOUT"; Fulfilled (VStr "")])
   = Settles (Rejected "No block height 0found"))
  /\ (blockhash_then (VNum 0)
        (map Utils.softFail
             [Fulfilled (VStr Sample.genesis); Rejected "ESOCKETTIMEDOUT";
              Fulfilled (VStr Sample.genesis)])
      = Settles (Fulfilled (VStr Sample.genesis)))
  /\ (block_then (VStr Sample.genesis)
        (map Utils.softFail
             [Fulfilled (VObj [("merkleroot", VStr Sample.merkleroot);
                               ("time", VNum 1296688602)]);
              Fulfilled (VObj [("merkleroot", VStr "deadbeef");
                               ("time", VNum 1296688602)])])
      = Settles (Rejected
                   ("Different block hash " ++ Sample.genesis ++ "found"))).
Proof.
  split; [|split].
  - apply (consensus_rule (VNum 0)
             [Rejected "ESOCKETTIMEDOUT"; Fulfilled (VStr "")]).
    + constructor.
    + reflexivity.
  - apply (consensus_rule (VNum 0)
             [Fulfilled (VStr Sample.genesis); Rejected "ESOCKETTIMEDOUT";
              Fulfilled (VStr Sample.genesis)]).
    + repeat constructor.
    + simpl. now left.
    + simpl. intros W [H|[H|[]]]; now symmetry.
  - apply (consensus_rule (VStr Sample.genesis)
             [Fulfilled (VObj [("merkleroot", VStr Sample.merkleroot);
                               ("time", VNum 1296688602)]);
              Fulfilled (VObj [("merkleroot", VStr "deadbeef");
                               ("time", VNum 1296688602)])])
      with (V := VObj [("merkleroot", VStr Sample.merkleroot);
                       ("time", VNum 1296688602)])
           (W := VObj [("merkleroot", VStr "deadbeef");
                       ("time", VNum 1296688602)]).
    + repeat constructor.
    + simpl. now left.
    + simpl. right. now left.
    + discriminate.
Defined.

(** One explorer times out and the other is fulfilled with the empty
    string: the query is rejected instead of being fulfilled with it. *)
Lemma partial_failure_empty_hash :
  blockhash_then (VNum 0)
    (map Utils.softFail [Rejected "ESOCKETTIMEDOUT"; Fulfilled (VStr "")])
  = Settles (Rejected "No block height 0found")
  /\ blockhash_then (VNum 0)
       (map Utils.softFail [Rejected "ESOCKETTIMEDOUT"; Fulfilled (VStr "")])
     <> Settles (Fulfilled (VStr "")).
Proof.
  split; [reflexivity|discriminate].
Qed.

Lemma partial_failure_tolerance_witness :
  truthy (VStr Sample.genesis) = true
  /\ blockhash_then (VNum 0)
       (map Utils.softFail
            [Rejected "ESOCKETTIMEDOUT"; Rejected "404";
             Fulfilled (VStr Sample.genesis)])
     = Settles (Fulfilled (VStr Sample.genesis)).
Proof.
  split; [reflexivity|].
  apply (partial_failure_tolerance (VNum 0) (VStr Sample.genesis)
           [Rejected "ESOCKETTIMEDOUT"; Rejected "404";
            Fulfilled (VStr Sample.genesis)]).
  - reflexivity.
  - reflexivity.
  - simpl. right. right. now left.
  - simpl. intros W [H|[H|[H|[]]]]; try discriminate H.
    now injection H as <-.
Defined.

Lemma decision_order_independent_witness :
  blockhash_then (VNum 0)
    (map Utils.softFail
         [Fulfilled (VStr Sample.genesis); Rejected "ESOCKETTIMEDOUT";
          Fulfilled (VStr "00")])
  = blockhash_then (VNum 0)
      (map Utils.softFail
           [Rejected "ESOCKETTIMEDOUT"; Fulfilled (VStr Sample.genesis);
            Fulfilled (VStr "00")]).
Proof.
  apply (decision_order_independent (VNum 0)
           [Fulfilled (VStr Sample.genesis); Rejected "ESOCKETTIMEDOUT";
            Fulfilled (VStr "00")]
           [Rejected "ESOCKETTIMEDOUT"; Fulfilled (VStr Sample.genesis);
            Fulfilled (VStr "00")]).
  apply perm_swap.
Defined.

Lemma normalisers_agree_witness :
  ChainInsight.parseBlockInfo_then Sample.insight_body
  = Fulfilled (VObj [("merkleroot", VStr Sample.merkleroot);
                     ("time", VNum 1296688602)])
  /\ Blockstream.parseBlockInfo_then Sample.blockstream_body
     = Fulfilled (VObj [("merkleroot", VStr Sample.merkleroot);
                        ("time", VNum 1296688602)]).
Proof.
  apply (normalisers_agree Sample.insight_body Sample.blockstream_body);
    reflexivity.
Defined.

Lemma falsy_success_discarded_witness :
  blockhash_then (VNum 0)
    (map Utils.softFail
         ([Fulfilled (VStr Sample.genesis)] ++ Fulfilled VUndefined
            :: [Fulfilled (VStr Sample.genesis)]))
  = blockhash_then (VNum 0)
      (map Utils.softFail
           ([Fulfilled (VStr Sample.genesis)] ++ Rejected "ESOCKETTIMEDOUT"
              :: [Fulfilled (VStr Sample.genesis)]))
  /\ blockhash_then (VNum 0)
       (map Utils.softFail [Fulfilled (VStr ""); Fulfilled VNull;
                            Fulfilled (VNum 0)])
     = Settles (Rejected "No block height 0found").
Proof.
  split.
  - apply (falsy_success_discarded (VNum 0)). reflexivity.
  - apply (falsy_success_discarded (VNum 0)).
    simpl. intros o [<-|[<-|[<-|[]]]]; eexists; split; reflexivity.
Defined.

(** A chain without a list in the table: the constructor throws, no
    MultiExplorer is built. *)
Lemma defaults_unknown_chain :
  opt_explorers Sample.unknown_chain = None
  /\ publicChainInsightUrls "dogecoin" = None
  /\ constructor (Some Sample.unknown_chain)
     = inl (TypeError "Cannot read properties of undefined (reading 'map')").
Proof.
  repeat split.
Qed.

Lemma defaults_from_registry_witness :
  constructor None
  = inr {| explorers :=
             map (fun u => new_ChainInsight u 10)
                 ["https://insight.bitpay.com/api";
                  "https://btc-bitcore1.trezor.io/api";
                  "https://btc-bitcore4.trezor.io/api";
                  "https://blockexplorer.com/api";
                  "https://bitcore.schmoock.net/insight-api"] |}
  /\ constructor (Some Sample.single_number_url)
     = inr {| explorers :=
                map (fun u => new_ChainInsight u 10)
                    ["https://test-insight.bitpay.com/api";
                     "https://testnet.blockexplorer.com/api"] |}.
Proof.
  split.
  - apply (defaults_from_registry None).
    + intros o l H. discriminate H.
    + reflexivity.
  - apply (defaults_from_registry (Some Sample.single_number_url)).
    + intros o l H E. injection H as <-. simpl in E. injection E as <-.
      simpl. lia.
    + reflexivity.
Defined.

(** A list of one entry whose url is a number: the entry is not looked
    at, the constructor builds the explorers of the table. *)
Lemma single_number_url_builds :
  constructor (Some Sample.single_number_url)
  = inr {| explorers :=
             [new_ChainInsight "https://test-insight.bitpay.com/api" 10;
              new_ChainInsight "https://testnet.blockexplorer.com/api" 10] |}
  /\ constructor (Some Sample.single_number_url)
     <> inl (TypeError "URL must be a string").
Proof.
  split; [reflexivity|discriminate].
Qed.

Lemma non_string_url_throws_witness :
  constructor (Some Sample.second_number_url)
  = inl (TypeError "URL must be a string")
  /\ Client.blockhash Sample.empty_hash_net (Some Sample.second_number_url)
       (VNum 0) []
     = (inl (TypeError "URL must be a string"), []).
Proof.
  destruct (non_string_url_throws Sample.empty_hash_net
              Sample.second_number_url
              [ {| spec_url := VStr "https://blockstream.info/api";
                   spec_type := VStr "blockstream" |};
                {| spec_url := VNum 42; spec_type := VStr "insight" |} ]
              (VNum 0) []) as (H1 & H2 & _).
  - reflexivity.
  - simpl. lia.
  - eexists. split; [right; left; reflexivity | reflexivity].
  - split; [exact H1|exact H2].
Defined.

(** Two entries with the empty string as url: the constructor builds
    both explorers. *)
Lemma empty_urls_build :
  constructor (Some Sample.empty_urls)
  = inr {| explorers := [new_ChainInsight "" 10; new_Blockstream "" 10] |}.
Proof. reflexivity. Qed.

Lemma throws_iff_non_string_url_witness :
  exists m, constructor (Some Sample.empty_urls) = inr m.
Proof.
  apply (throws_iff_non_string_url Sample.empty_urls
           [ {| spec_url := VStr ""; spec_type := VStr "insight" |};
             {| spec_url := VStr ""; spec_type := VStr "blockstream" |} ]).
  - reflexivity.
  - simpl. lia.
  - simpl. intros spec [<-|[<-|[]]]; reflexivity.
Defined.

(** Two entries whose type is no known family: the constructor builds a
    Blockstream for each. *)
Lemma esplora_type_builds :
  constructor (Some Sample.esplora_type)
  = inr {| explorers :=
             [new_Blockstream "https://mempool.space/api" 10;
              new_Blockstream "https://blockstream.info/api" 10] |}.
Proof. reflexivity. Qed.

Lemma other_type_is_blockstream_witness :
  exists m,
    constructor (Some Sample.esplora_type) = inr m
    /\ map kind (explorers m) = [BlockstreamApi; BlockstreamApi].
Proof.
  apply (other_type_is_blockstream Sample.esplora_type
           [ {| spec_url := VStr "https://mempool.space/api";
                spec_type := VStr "esplora" |};
             {| spec_url := VStr "https://blockstream.info/api";
                spec_type := VUndefined |} ]).
  - reflexivity.
  - simpl. lia.
  - simpl. intros spec [<-|[<-|[]]]; reflexivity.
Defined.

(** The run of the test file against servers that answer with the
    genesis block of the test network. *)
Lemma test_blockhash :
  Client.blockhash
    (fun r =>
       if String.eqb (url r)
            "https://blockstream.info/testnet/api/block-height//0"
       then Body (VStr Sample.genesis)
       else Body (VObj [("blockHash", VStr Sample.genesis)]))
    (Some Sample.test_options) (VNum 0) []
  = (inr (Settles (Fulfilled (VStr Sample.genesis))),
     [ {| url := "https://blockstream.info/testnet/api/block-height//0";
          accept := "*/*"; timeout := 11000 |};
       {| url := "https://testnet.blockexplorer.com/api/block-index/0";
          accept := "*/*"; timeout := 11000 |} ]).
Proof. reflexivity. Qed.

End Samples.

(** * Further properties *)

(** ** Explorers on a network *)

Section Runs.

Lemma ChainExplorer_blockhash_run (net : transport) (e : chain_explorer)
  (height : value) (log : list request) :
  ChainExplorer.blockhash net e height log
  = (blockhash_outcome net e height,
     (log ++ [ChainExplorer.blockhash_options e height])%list).
Proof.
  unfold blockhash_outcome, ChainExplorer.blockhash.
  destruct (kind e); reflexivity.
Qed.

Lemma ChainExplorer_block_run (net : transport) (e : chain_explorer)
  (hash : value) (log : list request) :
  ChainExplorer.block net e hash log
  = (block_outcome net e hash,
     (log ++ [ChainExplorer.block_options e hash])%list).
Proof.
  unfold block_outcome, ChainExplorer.block.
  destruct (kind e); reflexivity.
Qed.

Lemma forEach_run {A B : Type} (f : A -> io B) (g : A -> B)
  (r : A -> request) (l : list A) (log : list request) :
  (forall a log', f a log' = (g a, (log' ++ [r a])%list)) ->
  forEach f l log = (map g l, (log ++ map r l)%list).
Proof.
  intros Hf. revert log. induction l as [|a l IH]; intros log.
  - simpl. unfold ret. now rewrite List.app_nil_r.
  - cbn [forEach map]. unfold bind at 1. rewrite Hf.
    unfold bind. rewrite IH. unfold ret.
    now rewrite <- List.app_assoc.
Qed.

Lemma blockhash_all_run (net : transport) (this : MultiExplorer.t)
  (height : value) (log : list request) :
  MultiExplorer.blockhash_all net this height log
  = (map (fun e => blockhash_outcome net e height)
         (MultiExplorer.explorers this),
     (log ++ map (fun e => ChainExplorer.blockhash_options e height)
                 (MultiExplorer.explorers this))%list).
Proof.
  unfold MultiExplorer.blockhash_all. apply forEach_run.
  intros e log'. apply ChainExplorer_blockhash_run.
Qed.

Lemma block_all_run (net : transport) (this : MultiExplorer.t)
  (hash : value) (log : list request) :
  MultiExplorer.block_all net this hash log
  = (map (fun e => block_outcome net e hash)
         (MultiExplorer.explorers this),
     (log ++ map (fun e => ChainExplorer.block_options e hash)
                 (MultiExplorer.explorers this))%list).
Proof.
  unfold MultiExplorer.block_all. apply forEach_run.
  intros e log'. apply ChainExplorer_block_run.
Qed.

Lemma blockhash_result (net : transport) (this : MultiExplorer.t)
  (height : value) (log : list request) :
  fst (MultiExplorer.blockhash net this height log)
  = MultiExplorer.blockhash_then height
      (map Utils.softFail
           (map (fun e => blockhash_outcome net e height)
                (MultiExplorer.explorers this))).
Proof.
  unfold MultiExplorer.blockhash, bind. now rewrite blockhash_all_run.
Qed.

Lemma block_result (net : transport) (this : MultiExplorer.t)
  (hash : value) (log : list request) :
  fst (MultiExplorer.block net this hash log)
  = MultiExplorer.block_then hash
      (map Utils.softFail
           (map (fun e => block_outcome net e hash)
                (MultiExplorer.explorers this))).
Proof.
  unfold MultiExplorer.block, bind. now rewrite block_all_run.
Qed.

End Runs.

(** ** What the constructor guarantees *)

Section Built.

Import MultiExplorer.






(** X2.  A list of fewer than two explorers is not read at all: the
    constructor does with it what it does without any list, whatever the
    entry holds. *)
Theorem short_list_ignored (o : Options) (l : list ProviderSpec) :
  opt_explorers o = Some l -> (List.length l < 2)%nat ->
  constructor (Some o) = constructor (Some (without_explorers o)).
Proof.
  intros E Hlen. unfold constructor.
  assert (Hset : explorersOptionSet (Some o) = false).
  { unfold explorersOptionSet. rewrite E. apply Nat.ltb_ge. lia. }
  rewrite Hset. reflexivity.
Qed.


End Built.

(** ** Queries from the servers' answers to the decision *)

Section EndToEnd.

Import MultiExplorer.

Lemma usable_values_none (outcomes : list settled) :
  (forall o, In o outcomes ->
             match o with
             | Fulfilled v => truthy v = false
             | Rejected _ => True
             end) ->
  usable_values outcomes = [].
Proof.
  induction outcomes as [|[v|msg] outcomes IH]; intros H; simpl.
  - reflexivity.
  - rewrite (H (Fulfilled v) (or_introl eq_refl)). simpl.
    apply IH. intros o Ho. apply H. now right.
  - apply IH. intros o Ho. apply H. now right.
Qed.

Lemma verdict_all_same (V : value) (outcomes : list settled) :
  outcomes <> [] -> truthy V = true -> is_json V = true ->
  (forall o, In o outcomes -> o = Fulfilled V) ->
  verdict_of (answers (map Utils.softFail outcomes)) = Agreed V.
Proof.
  intros Hne Ht Hj Hall.
  apply verdict_agreed; [exact Hj| |].
  - destruct outcomes as [|o outcomes]; [contradiction|].
    rewrite (Hall o (or_introl eq_refl)). simpl.
    rewrite Ht, (is_json_kept V Hj). now left.
  - intros W HW. apply usable_values_In in HW as [HW _].
    apply Hall in HW. congruence.
Qed.

Lemma truthy_get_not_nullish (body : value) (k : string) :
  truthy (get body k) = true -> is_nullish body = false.
Proof. destruct body; simpl; congruence. Qed.

(** X4.  Explorers of both families that answer a height with the same
    non-empty block hash, the Insight servers in the field [blockHash]
    of an object, the Blockstream servers as the bare string, agree:
    the query is fulfilled with that hash. *)
Theorem families_agree_on_hash (net : transport) (m : t)
  (height : value) (hash : string) (log : list request) :
  explorers m <> [] -> hash <> EmptyString ->
  (forall e, In e (explorers m) ->
     match kind e with
     | Insight =>
         exists body,
           net (ChainExplorer.blockhash_options e height) = Body body
           /\ strict_eq_zero (get body "size") = false
           /\ get body "blockHash" = VStr hash
     | BlockstreamApi =>
         net (ChainExplorer.blockhash_options e height) = Body (VStr hash)
     end) ->
  fst (blockhash net m height log) = Settles (Fulfilled (VStr hash)).
Proof.
  intros Hne Hhash Hnet.
  assert (Ht : truthy (VStr hash) = true).
  { simpl. apply negb_true_iff, String.eqb_neq, Hhash. }
  rewrite blockhash_result, blockhash_then_verdict.
  rewrite (verdict_all_same (VStr hash)); try reflexivity; try assumption.
  - destruct (explorers m); [contradiction|discriminate].
  - intros o Ho. apply in_map_iff in Ho as (e & <- & He).
    specialize (Hnet e He).
    unfold blockhash_outcome, ChainExplorer.blockhash.
    destruct (kind e).
    + destruct Hnet as (body & Hb & Hsize & Hh).
      unfold ChainInsight.parseBlockhash, bind, requestPromise, ret.
      simpl. rewrite Hb. unfold ChainInsight.parseBlockhash_then.
      rewrite (truthy_get_not_nullish body "blockHash")
        by now rewrite Hh.
      now rewrite Hsize, Hh.
    + unfold Blockstream.parseBlockhash, bind, requestPromise, ret.
      simpl. rewrite Hnet. unfold Blockstream.parseBlockhash_then.
      now rewrite Ht.
Qed.


(** X6.  When no server gives a usable body, each request failing or
    coming back with a falsy body (absent, null, empty), both queries
    are rejected with their "No block ... found" error. *)
Theorem nothing_usable_no_block (net : transport) (m : t)
  (query : value) (log : list request) :
  ((forall e, In e (explorers m) ->
      match net (ChainExplorer.blockhash_options e query) with
      | Body body => truthy body = false
      | Failed _ => True
      end) ->
   fst (blockhash net m query log) = no_block_height query)
  /\ ((forall e, In e (explorers m) ->
         match net (ChainExplorer.block_options e query) with
         | Body body => truthy body = false
         | Failed _ => True
         end) ->
      fst (block net m query log) = no_block_hash query).
Proof.
  split; intros Hnet.
  - rewrite blockhash_result, blockhash_then_verdict.
    rewrite verdict_none; [reflexivity|].
    apply usable_values_none. intros o Ho.
    apply in_map_iff in Ho as (e & <- & He). specialize (Hnet e He).
    unfold blockhash_outcome, ChainExplorer.blockhash.
    destruct (kind e).
    + unfold ChainInsight.parseBlockhash, bind, requestPromise, ret.
      simpl. destruct (net _) as [body|err]; [|exact I].
      unfold ChainInsight.parseBlockhash_then.
      destruct body; simpl in *; try exact I; try reflexivity;
        discriminate.
    + unfold Blockstream.parseBlockhash, bind, requestPromise, ret.
      simpl. destruct (net _) as [body|err]; [|exact I].
      unfold Blockstream.parseBlockhash_then. now rewrite Hnet.
  - rewrite block_result, block_then_verdict.
    rewrite verdict_none; [reflexivity|].
    apply usable_values_none. intros o Ho.
    apply in_map_iff in Ho as (e & <- & He). specialize (Hnet e He).
    unfold block_outcome, ChainExplorer.block.
    destruct (kind e).
    + unfold ChainInsight.parseBlockInfo, bind, requestPromise, ret.
      simpl. destruct (net _) as [body|err]; [|exact I].
      unfold ChainInsight.parseBlockInfo_then. now rewrite Hnet.
    + unfold Blockstream.parseBlockInfo, bind, requestPromise, ret.
      simpl. destruct (net _) as [body|err]; [|exact I].
      unfold Blockstream.parseBlockInfo_then. now rewrite Hnet.
Qed.

End EndToEnd.

(** ** What a decision tells about the outcomes *)

Section Decisions.

Import MultiExplorer.

(** The verdict read backwards: what each verdict says of the usable
    outcomes, when they are values of a response. *)
Lemma verdict_sound (outcomes : list settled) :
  Forall (fun v => is_json v = true) (usable_values outcomes) ->
  match verdict_of (answers (map Utils.softFail outcomes)) with
  | NoAnswer => usable_values outcomes = []
  | Agreed V =>
      In V (usable_values outcomes)
      /\ forall W, In W (usable_values outcomes) -> W = V
  | Unreadable => False
  | Conflict =>
      exists V W,
        In V (usable_values outcomes) /\ In W (usable_values outcomes)
        /\ V <> W
  end.
Proof.
  intros Hjson. rewrite Forall_forall in Hjson.
  pose proof (answers_NoDup outcomes) as Hnd.
  pose proof (answers_In outcomes) as HIn.
  unfold verdict_of, JSSet.size.
  destruct (answers (map Utils.softFail outcomes)) as [|x [|y set]].
  - destruct (usable_values outcomes) as [|V vs] eqn:E; [reflexivity|].
    exfalso. apply (proj2 (HIn (JSON.stringify V))).
    exists V. split; [now left|reflexivity].
  - destruct (proj1 (HIn x) (or_introl eq_refl)) as (V & HV & ->).
    destruct (is_json_stringify V (Hjson V HV)) as [t Ht].
    unfold parse_first. simpl. rewrite Ht.
    rewrite (parse_stringify V t (Hjson V HV) Ht).
    split; [exact HV|]. intros W HW.
    assert (HtW : In (JSON.stringify W) [JSON.stringify V])
      by (apply HIn; eauto).
    destruct HtW as [E|[]].
    symmetry in E. now apply stringify_inj in E; auto.
  - destruct (proj1 (HIn x) (or_introl eq_refl)) as (V & HV & ->).
    destruct (proj1 (HIn y) (or_intror (or_introl eq_refl)))
      as (W & HW & ->).
    exists V, W. repeat split; try assumption.
    intros ->. inversion Hnd as [|? ? Hx _]. apply Hx. now left.
Qed.

(** X7.  On outcomes whose usable values are values of a response, a
    query never stays pending and its promise tells the outcomes apart:
    it is rejected with "No block ... found" only when no outcome is
    usable, fulfilled with [V] only when some explorer was fulfilled with
    [V] and every usable outcome carries [V], and rejected with
    "Different block ... found" only when two usable outcomes carry
    different values. *)
Theorem decision_sound (query : value) (outcomes : list settled) :
  Forall (fun v => is_json v = true) (usable_values outcomes) ->
  (blockhash_then query (map Utils.softFail outcomes)
   = no_block_height query
   /\ block_then query (map Utils.softFail outcomes) = no_block_hash query
   /\ usable_values outcomes = [])
  \/ (exists V,
        blockhash_then query (map Utils.softFail outcomes)
        = Settles (Fulfilled V)
        /\ block_then query (map Utils.softFail outcomes)
           = Settles (Fulfilled V)
        /\ In (Fulfilled V) outcomes
        /\ truthy V = true
        /\ forall W, In W (usable_values outcomes) -> W = V)
  \/ (exists V W,
        blockhash_then query (map Utils.softFail outcomes)
        = different_block_height query
        /\ block_then query (map Utils.softFail outcomes)
           = different_block_hash query
        /\ In V (usable_values outcomes)
        /\ In W (usable_values outcomes)
        /\ V <> W).
Proof.
  intros Hjson. pose proof (verdict_sound outcomes Hjson) as H.
  rewrite blockhash_then_verdict, block_then_verdict.
  destruct (verdict_of (answers (map Utils.softFail outcomes))) as [|V| |].
  - left. repeat split. exact H.
  - right. left. exists V. destruct H as [HV Hall].
    pose proof (proj1 (usable_values_In outcomes V) HV) as [Hin Hk].
    apply andb_prop in Hk as [Ht _]. repeat split; assumption.
  - destruct H.
  - right. right. destruct H as (V & W & HV & HW & Hneq).
    exists V, W. repeat split; assumption.
Qed.

Lemma verdict_same_answers (s1 s2 : JSSet.t) :
  NoDup s1 -> NoDup s2 -> (forall x, In x s1 <-> In x s2) ->
  verdict_of s1 = verdict_of s2.
Proof.
  intros H1 H2 Hsame.
  pose proof (NoDup_Permutation H1 H2 Hsame) as Hp.
  unfold verdict_of, JSSet.size. rewrite (Permutation_length Hp).
  destruct s2 as [|y [|z s2]]; try reflexivity.
  apply Permutation_sym, Permutation_length_1_inv in Hp. now rewrite Hp.
Qed.

(** X8.  A decision depends on which values the usable outcomes carry,
    not on how many explorers carry each: two lists of outcomes with the
    same usable values get the same promise from both queries. *)
Theorem decision_by_distinct_values (query : value) (a b : list settled) :
  (forall V, In V (usable_values a) <-> In V (usable_values b)) ->
  blockhash_then query (map Utils.softFail a)
  = blockhash_then query (map Utils.softFail b)
  /\ block_then query (map Utils.softFail a)
     = block_then query (map Utils.softFail b).
Proof.
  intros Hsame.
  rewrite !blockhash_then_verdict, !block_then_verdict.
  rewrite (verdict_same_answers (answers (map Utils.softFail a))
             (answers (map Utils.softFail b)));
    try apply answers_NoDup; [now split|].
  intros x. rewrite !answers_In.
  split; intros (V & HV & E); exists V; (split; [now apply Hsame|exact E]).
Qed.

Lemma verdict_conflict_size (s : JSSet.t) :
  verdict_of s = Conflict <-> (2 <= JSSet.size s)%nat.
Proof.
  unfold verdict_of, JSSet.size. destruct s as [|x [|y s]]; simpl.
  - split; [discriminate|lia].
  - destruct (parse_first [x]); split; try discriminate; lia.
  - split; [lia|reflexivity].
Qed.

Lemma blockhash_promise_conflict (query : value) (d : verdict) :
  blockhash_promise query d = different_block_height query -> d = Conflict.
Proof.
  destruct d; simpl; unfold different_block_height; simpl;
    try discriminate; reflexivity.
Qed.

Lemma block_promise_conflict (query : value) (d : verdict) :
  block_promise query d = different_block_hash query -> d = Conflict.
Proof.
  destruct d; simpl; unfold different_block_hash; simpl;
    try discriminate; reflexivity.
Qed.

Lemma verdict_conflict_more (a b : list settled) :
  verdict_of (answers (map Utils.softFail a)) = Conflict ->
  (forall V, In V (usable_values a) -> In V (usable_values b)) ->
  verdict_of (answers (map Utils.softFail b)) = Conflict.
Proof.
  rewrite !verdict_conflict_size. intros Ha Hincl.
  unfold JSSet.size in *.
  apply (Nat.le_trans _ _ _ Ha).
  apply NoDup_incl_length; [apply answers_NoDup|].
  intros x Hx. apply answers_In in Hx as (V & HV & ->).
  apply answers_In. exists V. split; [now apply Hincl|reflexivity].
Qed.

Lemma usable_values_app (a b : list settled) :
  usable_values (a ++ b) = (usable_values a ++ usable_values b)%list.
Proof.
  induction a as [|[v|msg] a IH]; simpl; [reflexivity| |exact IH].
  destruct (truthy v && negb (instanceof_Error v)); simpl; now rewrite IH.
Qed.

(** X9.  A disagreement is final: once the outcomes of some explorers
    make a query reject with "Different block ... found", the outcomes
    of further explorers, before or after them, leave it rejected with
    that error. *)
Theorem conflict_is_final (query : value) (a b : list settled) :
  (blockhash_then query (map Utils.softFail a)
   = different_block_height query ->
   blockhash_then query (map Utils.softFail (a ++ b))
   = different_block_height query
   /\ blockhash_then query (map Utils.softFail (b ++ a))
      = different_block_height query)
  /\ (block_then query (map Utils.softFail a)
      = different_block_hash query ->
      block_then query (map Utils.softFail (a ++ b))
      = different_block_hash query
      /\ block_then query (map Utils.softFail (b ++ a))
         = different_block_hash query).
Proof.
  split; intros H.
  - rewrite blockhash_then_verdict in H.
    apply blockhash_promise_conflict in H.
    rewrite !blockhash_then_verdict.
    rewrite (verdict_conflict_more a (a ++ b) H),
            (verdict_conflict_more a (b ++ a) H);
      try (intros V HV; rewrite usable_values_app, in_app_iff; auto).
    now split.
  - rewrite block_then_verdict in H.
    apply block_promise_conflict in H.
    rewrite !block_then_verdict.
    rewrite (verdict_conflict_more a (a ++ b) H),
            (verdict_conflict_more a (b ++ a) H);
      try (intros V HV; rewrite usable_values_app, in_app_iff; auto).
    now split.
Qed.

End Decisions.

(** ** What the explorers settle to *)

Section Outcomes.

Import MultiExplorer.

Lemma is_json_lookup (k : string) (props : list (string * value)) :
  forallb (fun kv => is_json (snd kv)) props = true ->
  truthy (lookup k props) = true -> is_json (lookup k props) = true.
Proof.
  induction props as [|[k' v] props IH]; simpl; [discriminate|].
  intros H. apply andb_prop in H as [Hv H].
  destruct (String.eqb k k'); [now intros _|now apply IH].
Qed.

Lemma lookup_missing (k : string) (props : list (string * value)) :
  ~ In k (map fst props) -> lookup k props = VUndefined.
Proof.
  induction props as [|[k' v] props IH]; intros Hmissing; [reflexivity|].
  cbn [lookup]. destruct (String.eqb_spec k k') as [<-|Hne].
  - exfalso. apply Hmissing. now left.
  - apply IH. intros Hin. apply Hmissing. now right.
Qed.

Lemma is_json_get (body : value) (k : string) :
  is_json body = true -> truthy (get body k) = true ->
  is_json (get body k) = true.
Proof.
  destruct body; simpl; try discriminate.
  intros H. apply andb_prop in H as [H _]. now apply is_json_lookup.
Qed.

Lemma blockhash_outcome_cases (net : transport) (e : chain_explorer)
  (height : value) :
  blockhash_outcome net e height
  = match net (ChainExplorer.blockhash_options e height), kind e with
    | Body body, Insight => ChainInsight.parseBlockhash_then body
    | Body body, BlockstreamApi => Blockstream.parseBlockhash_then body
    | Failed err, _ => Rejected err
    end.
Proof.
  unfold blockhash_outcome, ChainExplorer.blockhash.
  destruct (kind e);
    [unfold ChainInsight.parseBlockhash|unfold Blockstream.parseBlockhash];
    unfold bind, requestPromise, ret; simpl;
    now destruct (net _).
Qed.

Lemma block_outcome_cases (net : transport) (e : chain_explorer)
  (hash : value) :
  block_outcome net e hash
  = match net (ChainExplorer.block_options e hash), kind e with
    | Body body, Insight => ChainInsight.parseBlockInfo_then body
    | Body body, BlockstreamApi => Blockstream.parseBlockInfo_then body
    | Failed err, _ => Rejected err
    end.
Proof.
  unfold block_outcome, ChainExplorer.block.
  destruct (kind e);
    [unfold ChainInsight.parseBlockInfo|unfold Blockstream.parseBlockInfo];
    unfold bind, requestPromise, ret; simpl;
    now destruct (net _).
Qed.

(** A block information an explorer is fulfilled with: both fields,
    truthy, and values of a response when the body is one. *)
Lemma block_outcome_fulfilled (net : transport) (e : chain_explorer)
  (hash info : value) :
  block_outcome net e hash = Fulfilled info ->
  exists body root time,
    net (ChainExplorer.block_options e hash) = Body body
    /\ info = VObj [("merkleroot", root); ("time", time)]
    /\ truthy root = true /\ truthy time = true
    /\ (is_json body = true -> is_json info = true).
Proof.
  rewrite block_outcome_cases.
  destruct (net _) as [body|err]; [|destruct (kind e); discriminate].
  destruct (kind e); intros H.
  - destruct (ChainInsight_parseBlockInfo_then_inv _ _ H) as (_ & Hr & Ht).
    rewrite (ChainInsight_parseBlockInfo_then_ok body Hr Ht) in H.
    injection H as <-. exists body, (get body "merkleroot"), (get body "time").
    repeat split; try assumption.
    intros Hj. simpl.
    now rewrite (is_json_get body _ Hj Hr), (is_json_get body _ Hj Ht).
  - destruct (Blockstream_parseBlockInfo_then_inv _ _ H) as (_ & Hr & Ht).
    rewrite (Blockstream_parseBlockInfo_then_ok body Hr Ht) in H.
    injection H as <-.
    exists body, (get body "merkle_root"), (get body "timestamp").
    repeat split; try assumption.
    intros Hj. simpl.
    now rewrite (is_json_get body _ Hj Hr), (is_json_get body _ Hj Ht).
Qed.

(** A truthy block hash an explorer is fulfilled with is a value of a
    response when the body is one. *)
Lemma blockhash_outcome_fulfilled (net : transport) (e : chain_explorer)
  (height v : value) :
  blockhash_outcome net e height = Fulfilled v -> truthy v = true ->
  exists body,
    net (ChainExplorer.blockhash_options e height) = Body body
    /\ (is_json body = true -> is_json v = true).
Proof.
  rewrite blockhash_outcome_cases.
  destruct (net _) as [body|err]; [|destruct (kind e); discriminate].
  intros H Hv. exists body. split; [reflexivity|]. intros Hj.
  destruct (kind e).
  - unfold ChainInsight.parseBlockhash_then in H.
    destruct (is_nullish body); [discriminate|].
    destruct (strict_eq_zero (get body "size")); [discriminate|].
    injection H as <-. now apply is_json_get.
  - unfold Blockstream.parseBlockhash_then in H.
    destruct (truthy body); [|discriminate].
    simpl in H. now injection H as <-.
Qed.

(** X10.  When the bodies the servers answer a hash with are values of
    a response, [block] never stays pending, and a block information it
    is fulfilled with is whole and comes from a server: an object of a
    truthy merkle root and a truthy time that some explorer was
    fulfilled with. *)
Theorem block_resolves_whole_info (net : transport) (m : t)
  (hash : value) (log : list request) :
  (forall e body,
      In e (explorers m) ->
      net (ChainExplorer.block_options e hash) = Body body ->
      is_json body = true) ->
  fst (block net m hash log) <> Pending
  /\ forall info,
      fst (block net m hash log) = Settles (Fulfilled info) ->
      exists root time e,
        info = VObj [("merkleroot", root); ("time", time)]
        /\ truthy root = true /\ truthy time = true
        /\ In e (explorers m)
        /\ block_outcome net e hash = Fulfilled info.
Proof.
  intros Hnet. rewrite block_result, block_then_verdict.
  assert (Hjson : Forall (fun v => is_json v = true)
                    (usable_values (map (fun e => block_outcome net e hash)
                                        (explorers m)))).
  { apply Forall_forall. intros V HV.
    apply usable_values_In in HV as [HV _].
    apply in_map_iff in HV as (e & He & Hin).
    destruct (block_outcome_fulfilled net e hash V He)
      as (body & _ & _ & Hb & _ & _ & _ & Hj).
    apply Hj. now apply (Hnet e). }
  pose proof (verdict_sound _ Hjson) as H.
  destruct (verdict_of _) as [|V| |]; try destruct H.
  - split; [discriminate|discriminate].
  - split; [discriminate|]. intros info Hinfo. injection Hinfo as <-.
    apply usable_values_In in H as [HV _].
    apply in_map_iff in HV as (e & He & Hin).
    destruct (block_outcome_fulfilled net e hash V He)
      as (body & root & time & _ & -> & Hr & Ht & _).
    exists root, time, e. repeat split; assumption.
  - split; [discriminate|discriminate].
Qed.

(** X11.  When the bodies the servers answer a height with are values
    of a response, [blockhash] never stays pending, and a value it is
    fulfilled with is truthy and is the one some explorer was fulfilled
    with. *)
Theorem blockhash_resolves_an_answer (net : transport) (m : t)
  (height : value) (log : list request) :
  (forall e body,
      In e (explorers m) ->
      net (ChainExplorer.blockhash_options e height) = Body body ->
      is_json body = true) ->
  fst (blockhash net m height log) <> Pending
  /\ forall v,
      fst (blockhash net m height log) = Settles (Fulfilled v) ->
      truthy v = true
      /\ exists e, In e (explorers m)
                   /\ blockhash_outcome net e height = Fulfilled v.
Proof.
  intros Hnet. rewrite blockhash_result, blockhash_then_verdict.
  assert (Hjson : Forall (fun v => is_json v = true)
                    (usable_values
                       (map (fun e => blockhash_outcome net e height)
                            (explorers m)))).
  { apply Forall_forall. intros V HV.
    apply usable_values_In in HV as [HV Hk].
    apply andb_prop in Hk as [Ht _].
    apply in_map_iff in HV as (e & He & Hin).
    destruct (blockhash_outcome_fulfilled net e height V He Ht)
      as (body & Hb & Hj).
    apply Hj. now apply (Hnet e). }
  pose proof (verdict_sound _ Hjson) as H.
  destruct (verdict_of _) as [|V| |]; try destruct H.
  - split; [discriminate|discriminate].
  - split; [discriminate|]. intros v Hv. injection Hv as <-.
    apply usable_values_In in H as [HV Hk].
    apply andb_prop in Hk as [Ht _].
    apply in_map_iff in HV as (e & He & Hin).
    split; [exact Ht|]. exists e. now split.
  - split; [discriminate|discriminate].
Qed.

(** X12.  What one explorer settles to for a height.  A failure of the
    transport is handed on as it is.  A Blockstream explorer is never
    fulfilled with a falsy value: it is fulfilled with the body when the
    body is truthy and rejected otherwise.  An Insight explorer is
    rejected on a null or undefined body and on a body whose [size] is
    0; on any other body it is fulfilled with the field [blockHash],
    which is undefined when the body has none. *)
Theorem explorer_blockhash_outcomes (net : transport) (e : chain_explorer)
  (height : value) :
  (forall err,
      net (ChainExplorer.blockhash_options e height) = Failed err ->
      blockhash_outcome net e height = Rejected err)
  /\ (forall v,
        kind e = BlockstreamApi ->
        blockhash_outcome net e height = Fulfilled v ->
        truthy v = true
        /\ net (ChainExplorer.blockhash_options e height) = Body v)
  /\ (forall body,
        kind e = Insight ->
        net (ChainExplorer.blockhash_options e height) = Body body ->
        (is_nullish body = true \/ get body "size" = VNum 0 ->
         exists msg, blockhash_outcome net e height = Rejected msg)
        /\ (is_nullish body = false ->
            strict_eq_zero (get body "size") = false ->
            blockhash_outcome net e height
            = Fulfilled (get body "blockHash"))
        /\ (forall props,
              body = VObj props ->
              ~ In "blockHash" (map fst props) ->
              strict_eq_zero (get body "size") = false ->
              blockhash_outcome net e height = Fulfilled VUndefined)).
Proof.
  rewrite blockhash_outcome_cases. split; [|split].
  - intros err ->. reflexivity.
  - intros v Hk Hv. rewrite Hk in Hv.
    destruct (net _) as [body|err]; [|discriminate].
    unfold Blockstream.parseBlockhash_then in Hv.
    destruct (truthy body) eqn:E; [|discriminate].
    simpl in Hv. injection Hv as <-. now split.
  - intros body Hk Hb. rewrite Hk, Hb.
    unfold ChainInsight.parseBlockhash_then. split; [|split].
    + intros [Hn|Hs].
      * rewrite Hn. eauto.
      * destruct (is_nullish body); [eauto|]. rewrite Hs. simpl. eauto.
    + intros Hn Hs. now rewrite Hn, Hs.
    + intros props -> Hmissing Hs. simpl is_nullish. cbv iota.
      rewrite Hs. f_equal. now apply lookup_missing.
Qed.

End Outcomes.

(** ** The standalone Blockstream explorer *)

Section Standalone.

(** X13.  A query of the standalone Blockstream explorer sends one
    request and is never fulfilled in part: [blockhash] is fulfilled
    only with a truthy body, [block] only with the object of the truthy
    [merkle_root] and [timestamp] of the body; a failure of the
    transport is handed on as it is. *)
Theorem standalone_never_partial (net : transport)
  (this : BlockstreamExplorer.t) (query : value) (log : list request) :
  (snd (BlockstreamExplorer.blockhash net this query log)
   = (log ++ [BlockstreamExplorer.blockhash_options this query])%list
   /\ snd (BlockstreamExplorer.block net this query log)
      = (log ++ [BlockstreamExplorer.block_options this query])%list)
  /\ (forall v,
        fst (BlockstreamExplorer.blockhash net this query log) = Fulfilled v ->
        truthy v = true
        /\ net (BlockstreamExplorer.blockhash_options this query) = Body v)
  /\ (forall info,
        fst (BlockstreamExplorer.block net this query log) = Fulfilled info ->
        exists body,
          net (BlockstreamExplorer.block_options this query) = Body body
          /\ info = VObj [("merkleroot", get body "merkle_root");
                          ("time", get body "timestamp")]
          /\ truthy (get body "merkle_root") = true
          /\ truthy (get body "timestamp") = true)
  /\ (forall err,
        (net (BlockstreamExplorer.blockhash_options this query) = Failed err ->
         fst (BlockstreamExplorer.blockhash net this query log)
         = Rejected err)
        /\ (net (BlockstreamExplorer.block_options this query) = Failed err ->
            fst (BlockstreamExplorer.block net this query log)
            = Rejected err)).
Proof.
  unfold BlockstreamExplorer.blockhash, BlockstreamExplorer.block,
    bind, requestPromise, ret. simpl.
  split; [split; reflexivity|]. split; [|split].
  - intros v H.
    destruct (net (BlockstreamExplorer.blockhash_options this query))
      as [body|err]; [|discriminate].
    unfold BlockstreamExplorer.blockhash_then in H.
    destruct (truthy body) eqn:E; [|discriminate].
    simpl in H. injection H as <-. now split.
  - intros info H.
    destruct (net (BlockstreamExplorer.block_options this query))
      as [body|err]; [|discriminate].
    unfold BlockstreamExplorer.block_then in H.
    destruct (truthy body); simpl in H; [|discriminate].
    destruct (truthy (get body "merkle_root")) eqn:Er; simpl in H;
      [|discriminate].
    destruct (truthy (get body "timestamp")) eqn:Et; simpl in H;
      [|discriminate].
    injection H as <-. exists body. repeat split; assumption.
  - intros err. split; intros ->; reflexivity.
Qed.

Lemma append_slash (a b c : string) :
  (a ++ b) ++ "/" ++ c = a ++ b ++ "/" ++ c.
Proof. apply append_assoc. Qed.

(** X14.  The address each class asks for a height [h] and for a hash
    [x] at a server of address [u]: an Insight explorer asks
    [u/block-index/h] and [u/block/x]; the standalone Blockstream
    explorer asks [u/block-height/h] and [u/block/x]; the Blockstream
    class of the MultiExplorer asks the same with one slash more,
    [u/block-height//h] and [u/block//x]. *)
Theorem request_urls (u : string) (seconds : Z) (query : value) :
  (url (ChainExplorer.blockhash_options (new_ChainInsight u seconds) query)
   = u ++ "/block-index/" ++ ToString query
   /\ url (ChainExplorer.block_options (new_ChainInsight u seconds) query)
      = u ++ "/block/" ++ ToString query)
  /\ (url (BlockstreamExplorer.blockhash_options
             (BlockstreamExplorer.constructor u seconds) query)
      = u ++ "/block-height/" ++ ToString query
      /\ url (BlockstreamExplorer.block_options
                (BlockstreamExplorer.constructor u seconds) query)
         = u ++ "/block/" ++ ToString query)
  /\ (url (ChainExplorer.blockhash_options (new_Blockstream u seconds) query)
      = u ++ "/block-height//" ++ ToString query
      /\ url (ChainExplorer.block_options (new_Blockstream u seconds) query)
         = u ++ "/block//" ++ ToString query).
Proof.
  unfold ChainExplorer.blockhash_options, ChainExplorer.block_options,
    BlockstreamExplorer.blockhash_options, BlockstreamExplorer.block_options.
  simpl. rewrite !append_assoc. simpl. repeat split.
Qed.

(** X15.  The standalone Blockstream explorer and the Blockstream class
    of the MultiExplorer treat an answer alike: when a server gives both
    requests the same answer, both settle the same way, for a height and
    for a hash; and both multiply the timeout by 1000. *)
Theorem standalone_agrees_with_class (net : transport) (u : string)
  (seconds : Z) (query : value) (log : list request) :
  (net (BlockstreamExplorer.blockhash_options
          (BlockstreamExplorer.constructor u seconds) query)
   = net (ChainExplorer.blockhash_options (new_Blockstream u seconds) query)
   -> fst (BlockstreamExplorer.blockhash net
             (BlockstreamExplorer.constructor u seconds) query log)
      = fst (ChainExplorer.blockhash net (new_Blockstream u seconds)
               query log))
  /\ (net (BlockstreamExplorer.block_options
             (BlockstreamExplorer.constructor u seconds) query)
      = net (ChainExplorer.block_options (new_Blockstream u seconds) query)
      -> fst (BlockstreamExplorer.block net
                (BlockstreamExplorer.constructor u seconds) query log)
         = fst (ChainExplorer.block net (new_Blockstream u seconds)
                  query log))
  /\ BlockstreamExplorer.this_timeout
       (BlockstreamExplorer.constructor u seconds)
     = explorer_timeout (new_Blockstream u seconds).
Proof.
  split; [|split].
  - intros H. unfold BlockstreamExplorer.blockhash, ChainExplorer.blockhash.
    cbn [kind new_Blockstream]. unfold Blockstream.parseBlockhash, bind,
      requestPromise, ret. cbn [fst]. now rewrite H.
  - intros H. unfold BlockstreamExplorer.block, ChainExplorer.block.
    cbn [kind new_Blockstream]. unfold Blockstream.parseBlockInfo, bind,
      requestPromise, ret. cbn [fst]. now rewrite H.
  - reflexivity.
Qed.

End Standalone.

(** ** From the entries of the options to the requests *)

Section Addresses.

Import MultiExplorer.

Lemma make_addresses (seconds : Z) (spec : ProviderSpec)
  (i : chain_explorer) (query : value) :
  make seconds spec = inr i ->
  url (ChainExplorer.blockhash_options i query)
  = blockhash_address spec query
  /\ url (ChainExplorer.block_options i query) = block_address spec query.
Proof.
  unfold make, blockhash_address, block_address, is_insight.
  destruct (spec_url spec) as [| | | |u| | |]; try discriminate.
  destruct (spec_type spec) as [| |b|n|ty|a|o|msg]; simpl;
    rewrite ?andb_false_r;
    try (intros H; injection H as <-; simpl;
         rewrite !append_assoc; simpl; now split).
  destruct (String.eqb ty "insight") eqn:E.
  - assert (Ht : negb (String.eqb ty "") = true).
    { apply String.eqb_eq in E. now subst ty. }
    rewrite Ht. simpl. intros H. injection H as <-. simpl.
    rewrite !append_assoc. simpl. now split.
  - rewrite andb_false_r. intros H. injection H as <-. simpl.
    rewrite !append_assoc. simpl. now split.
Qed.

Lemma push_all_addresses (seconds : Z) (l : list ProviderSpec)
  (acc es : list chain_explorer) (query : value) :
  push_all seconds l acc = inr es ->
  map (fun e => url (ChainExplorer.blockhash_options e query)) es
  = (map (fun e => url (ChainExplorer.blockhash_options e query)) acc
     ++ map (fun spec => blockhash_address spec query) l)%list
  /\ map (fun e => url (ChainExplorer.block_options e query)) es
     = (map (fun e => url (ChainExplorer.block_options e query)) acc
        ++ map (fun spec => block_address spec query) l)%list.
Proof.
  revert acc. induction l as [|spec l IH]; intros acc H; simpl in H.
  - injection H as <-. simpl. now rewrite !List.app_nil_r.
  - destruct (make seconds spec) as [e|i] eqn:E; [discriminate|].
    destruct (IH _ H) as [H1 H2].
    destruct (make_addresses seconds spec i query E) as [A1 A2].
    rewrite H1, H2, !List.map_app. cbn [map].
    rewrite A1, A2, <- !List.app_assoc. now split.
Qed.

(** X16.  A query on the MultiExplorer built from a list of two entries
    or more asks the server of each entry, in the order of the list, at
    the url of the entry followed by the path of its family and by the
    parameter: [/block-index/] and [/block/] for the type 'insight',
    [/block-height//] and [/block//] for the others. *)
Theorem requests_follow_entries (options : Options)
  (l : list ProviderSpec) (m : t) (net : transport) (query : value)
  (log : list request) :
  opt_explorers options = Some l -> (2 <= List.length l)%nat ->
  constructor (Some options) = inr m ->
  exists sent_height sent_block,
    snd (blockhash net m query log) = (log ++ sent_height)%list
    /\ map url sent_height = map (fun spec => blockhash_address spec query) l
    /\ snd (block net m query log) = (log ++ sent_block)%list
    /\ map url sent_block = map (fun spec => block_address spec query) l.
Proof.
  intros E Hlen H.
  assert (Hset : explorersOptionSet (Some options) = true
                 /\ explorers_option (Some options) = l).
  { unfold explorersOptionSet, explorers_option. rewrite E.
    split; [|reflexivity]. apply Nat.ltb_lt. lia. }
  destruct Hset as [Hset Hl].
  unfold constructor in H. rewrite Hset, Hl in H.
  destruct (push_all (timeout_of (Some options)) l []) as [e|es] eqn:Ep;
    [discriminate|].
  injection H as <-.
  destruct (push_all_addresses _ _ _ _ query Ep) as [A1 A2].
  simpl in A1, A2.
  exists (map (fun e => ChainExplorer.blockhash_options e query) es),
         (map (fun e => ChainExplorer.block_options e query) es).
  unfold blockhash, block, bind.
  rewrite blockhash_all_run, block_all_run. simpl.
  rewrite !List.map_map. repeat split; assumption.
Qed.

End Addresses.

(** ** The further properties on the scenario of the test file *)

Section ScenarioRuns.

Import MultiExplorer.


Lemma short_list_ignored_witness :
  constructor (Some Sample.single_number_url)
  = constructor (Some (without_explorers Sample.single_number_url)).
Proof.
  apply (short_list_ignored Sample.single_number_url
           [ {| spec_url := VNum 42; spec_type := VStr "insight" |} ]).
  - reflexivity.
  - simpl. lia.
Defined.


Lemma families_agree_on_hash_witness :
  fst (blockhash Scenario.test_net Scenario.test_explorers (VNum 0) [])
  = Settles (Fulfilled (VStr Sample.genesis)).
Proof.
  apply (families_agree_on_hash Scenario.test_net Scenario.test_explorers
           (VNum 0) Sample.genesis []).
  - discriminate.
  - discriminate.
  - intros e [<-|[<-|[]]].
    + reflexivity.
    + eexists. split; [reflexivity|]. split; reflexivity.
Defined.


Lemma nothing_usable_no_block_witness :
  fst (blockhash Scenario.down Scenario.test_explorers (VNum 0) [])
  = no_block_height (VNum 0)
  /\ fst (block Scenario.down Scenario.test_explorers
            (VStr Sample.genesis) [])
     = no_block_hash (VStr Sample.genesis).
Proof.
  split.
  - apply (nothing_usable_no_block Scenario.down Scenario.test_explorers
             (VNum 0) []).
    intros e _. exact I.
  - apply (nothing_usable_no_block Scenario.down Scenario.test_explorers
             (VStr Sample.genesis) []).
    intros e _. exact I.
Defined.

Lemma decision_sound_witness :
  (blockhash_then (VNum 0)
     (map Utils.softFail
          [Fulfilled (VStr Sample.genesis); Rejected "ESOCKETTIMEDOUT"])
   = no_block_height (VNum 0)
   /\ block_then (VNum 0)
        (map Utils.softFail
             [Fulfilled (VStr Sample.genesis); Rejected "ESOCKETTIMEDOUT"])
      = no_block_hash (VNum 0)
   /\ usable_values
        [Fulfilled (VStr Sample.genesis); Rejected "ESOCKETTIMEDOUT"] = [])
  \/ (exists V,
        blockhash_then (VNum 0)
          (map Utils.softFail
               [Fulfilled (VStr Sample.genesis); Rejected "ESOCKETTIMEDOUT"])
        = Settles (Fulfilled V)
        /\ block_then (VNum 0)
             (map Utils.softFail
                  [Fulfilled (VStr Sample.genesis);
                   Rejected "ESOCKETTIMEDOUT"])
           = Settles (Fulfilled V)
        /\ In (Fulfilled V)
              [Fulfilled (VStr Sample.genesis); Rejected "ESOCKETTIMEDOUT"]
        /\ truthy V = true
        /\ forall W,
            In W (usable_values
                    [Fulfilled (VStr Sample.genesis);
                     Rejected "ESOCKETTIMEDOUT"]) ->
            W = V)
  \/ (exists V W,
        blockhash_then (VNum 0)
          (map Utils.softFail
               [Fulfilled (VStr Sample.genesis); Rejected "ESOCKETTIMEDOUT"])
        = different_block_height (VNum 0)
        /\ block_then (VNum 0)
             (map Utils.softFail
                  [Fulfilled (VStr Sample.genesis);
                   Rejected "ESOCKETTIMEDOUT"])
           = different_block_hash (VNum 0)
        /\ In V (usable_values
                   [Fulfilled (VStr Sample.genesis);
                    Rejected "ESOCKETTIMEDOUT"])
        /\ In W (usable_values
                   [Fulfilled (VStr Sample.genesis);
                    Rejected "ESOCKETTIMEDOUT"])
        /\ V <> W).
Proof.
  apply (decision_sound (VNum 0)
           [Fulfilled (VStr Sample.genesis); Rejected "ESOCKETTIMEDOUT"]).
  repeat constructor.
Defined.

Lemma decision_by_distinct_values_witness :
  blockhash_then (VNum 0)
    (map Utils.softFail
         [Fulfilled (VStr "00"); Fulfilled (VStr "00"); Fulfilled (VStr "00");
          Fulfilled (VStr Sample.genesis)])
  = blockhash_then (VNum 0)
      (map Utils.softFail
           [Fulfilled (VStr Sample.genesis); Fulfilled (VStr "00")]).
Proof.
  apply (decision_by_distinct_values (VNum 0)
           [Fulfilled (VStr "00"); Fulfilled (VStr "00");
            Fulfilled (VStr "00"); Fulfilled (VStr Sample.genesis)]
           [Fulfilled (VStr Sample.genesis); Fulfilled (VStr "00")]).
  simpl. intros V. tauto.
Defined.

Lemma conflict_is_final_witness :
  blockhash_then (VNum 0)
    (map Utils.softFail
         ([Fulfilled (VStr Sample.genesis); Fulfilled (VStr "00")]
            ++ [Fulfilled (VStr Sample.genesis);
                Fulfilled (VStr Sample.genesis)]))
  = different_block_height (VNum 0).
Proof.
  apply (conflict_is_final (VNum 0)
           [Fulfilled (VStr Sample.genesis); Fulfilled (VStr "00")]
           [Fulfilled (VStr Sample.genesis);
            Fulfilled (VStr Sample.genesis)]).
  reflexivity.
Defined.

Lemma block_resolves_whole_info_witness :
  fst (block Scenario.test_net Scenario.test_explorers
         (VStr Sample.genesis) []) <> Pending.
Proof.
  apply (block_resolves_whole_info Scenario.test_net
           Scenario.test_explorers (VStr Sample.genesis) []).
  intros e body [<-|[<-|[]]] H; vm_compute in H; injection H as <-;
    reflexivity.
Defined.

Lemma blockhash_resolves_an_answer_witness :
  fst (blockhash Scenario.test_net Scenario.test_explorers (VNum 0) [])
  <> Pending.
Proof.
  apply (blockhash_resolves_an_answer Scenario.test_net
           Scenario.test_explorers (VNum 0) []).
  intros e body [<-|[<-|[]]] H; vm_compute in H; injection H as <-;
    reflexivity.
Defined.

Lemma explorer_blockhash_outcomes_witness :
  blockhash_outcome Scenario.not_found
    (new_ChainInsight "https://testnet.blockexplorer.com/api" 11) (VNum 0)
  = Fulfilled VUndefined.
Proof.
  destruct (explorer_blockhash_outcomes Scenario.not_found
              (new_ChainInsight "https://testnet.blockexplorer.com/api" 11)
              (VNum 0)) as (_ & _ & H).
  destruct (H (VObj [("error", VStr "Not found")]) eq_refl eq_refl)
    as (_ & _ & H3).
  apply (H3 [("error", VStr "Not found")] eq_refl).
  - simpl. intros [E|[]]. discriminate E.
  - reflexivity.
Defined.

Lemma standalone_never_partial_witness :
  truthy (VStr Sample.genesis) = true
  /\ Scenario.genesis_only
       (BlockstreamExplorer.blockhash_options
          (BlockstreamExplorer.constructor "https://blockstream.info/api" 10)
          (VNum 0))
     = Body (VStr Sample.genesis).
Proof.
  apply (standalone_never_partial Scenario.genesis_only
           (BlockstreamExplorer.constructor "https://blockstream.info/api" 10)
           (VNum 0) []).
  reflexivity.
Defined.

Lemma standalone_agrees_with_class_witness :
  fst (BlockstreamExplorer.blockhash Scenario.genesis_only
         (BlockstreamExplorer.constructor "https://blockstream.info/api" 10)
         (VNum 0) [])
  = fst (ChainExplorer.blockhash Scenario.genesis_only
           (new_Blockstream "https://blockstream.info/api" 10) (VNum 0) []).
Proof.
  apply (standalone_agrees_with_class Scenario.genesis_only
           "https://blockstream.info/api" 10 (VNum 0) []).
  reflexivity.
Defined.

Lemma requests_follow_entries_witness :
  exists sent_height sent_block,
    snd (blockhash Scenario.down Scenario.test_explorers (VNum 0) [])
    = ([] ++ sent_height)%list
    /\ map url sent_height
       = ["https://blockstream.info/testnet/api/block-height//0";
          "https://testnet.blockexplorer.com/api/block-index/0"]
    /\ snd (block Scenario.down Scenario.test_explorers (VNum 0) [])
       = ([] ++ sent_block)%list
    /\ map url sent_block
       = ["https://blockstream.info/testnet/api/block//0";
          "https://testnet.blockexplorer.com/api/block/0"].
Proof.
  apply (requests_follow_entries Sample.test_options
           [ {| spec_url := VStr "https://blockstream.info/testnet/api";
                spec_type := VStr "blockstream" |};
             {| spec_url := VStr "https://testnet.blockexplorer.com/api";
                spec_type := VStr "insight" |} ]
           Scenario.test_explorers Scenario.down (VNum 0) []).
  - reflexivity.
  - simpl. lia.
  - reflexivity.
Defined.

End ScenarioRuns.
